(** * influxdb-driver: the UDP chunker, the statement router, the
      transaction shim and the HTTP query path, embedded from the Go source.

    Go values are modelled as follows.
    - [[]byte] and [string] are byte sequences: [bytes := list ascii].
      A slice that the code compares with [nil] is an [option bytes]
      ([None] is the nil slice).
    - [int] is [Z]; no arithmetic in the modelled code can overflow.
    - [error] is [option error]; [None] is Go's [nil].
    - Pointers ([*conn], [*tx], [*BatchPoints]) are locations into a store.
    - A loop is a function on fuel that returns [None] when the fuel runs
      out; each comes with a lemma giving fuel that suffices. *)

From Stdlib Require Import ZArith Lia List Ascii String Bool.
From stdpp Require Import base option list gmap strings.
Import ListNotations.
Local Open Scope Z_scope.

(* ------------------------------------------------------------------ *)
(** ** Bytes *)

Definition bytes := list ascii.

(** [B "text"] is the byte sequence of a string literal. *)
Definition B (s : string) : bytes := list_ascii_of_string s.

Definition len (b : bytes) : Z := Z.of_nat (length b).

Definition newline : ascii := "010"%char.

(** Go's [bytes.IndexByte]: index of the first [c] in [b], or -1. *)
Fixpoint IndexByte (b : bytes) (c : ascii) : Z :=
  match b with
  | [] => -1
  | x :: b' =>
      if Ascii.eqb x c then 0
      else let r := IndexByte b' c in if r <? 0 then -1 else r + 1
  end.

(** [b[:pos]] and [b[pos:]] for [0 <= pos <= len b]. *)
Definition slice_to (b : bytes) (pos : Z) : bytes := take (Z.to_nat pos) b.
Definition slice_from (b : bytes) (pos : Z) : bytes := drop (Z.to_nat pos) b.

(** Go's [append(head, x...)]: appending nothing to the nil slice leaves it
    nil. *)
Definition go_append (head : option bytes) (x : bytes) : option bytes :=
  match head, x with
  | None, [] => None
  | None, _ => Some x
  | Some h, _ => Some (h ++ x)
  end.

Definition len_opt (head : option bytes) : Z :=
  match head with None => 0 | Some h => len h end.

(* ------------------------------------------------------------------ *)
(** ** Errors *)

(** Go [error] values, by the call that builds them. The format string of
    [fmt.Errorf] is kept with its arguments, not rendered. *)
Inductive fmtarg :=
| ArgInt (n : Z)
| ArgStr (s : bytes).

Inductive error :=
| errors_New (msg : string)
| fmt_Errorf (format : string) (args : list fmtarg)
| foreign_error (msg : bytes).   (* an error of a library outside the repository *)

(* ------------------------------------------------------------------ *)
(** ** The UDP chunker (udp.go) *)

Module UDP.

Definition UDPPayloadSize : Z := 512.

(** The [for len(head) < size] loop of [udpPayload]. *)
Fixpoint udpPayload_loop (fuel : nat) (head : option bytes) (tail : bytes)
    (size : Z) : option (option bytes * bytes) :=
  match fuel with
  | O => None
  | S fuel' =>
      if len_opt head <? size then
        let pos := IndexByte tail newline in
        if 0 <? pos then
          udpPayload_loop fuel' (go_append head (slice_to tail pos))
            (slice_from tail pos) size
        else Some (head, tail)
      else Some (head, tail)
  end.

(** [udpPayload] with explicit fuel. *)
Definition udpPayload_fuel (fuel : nat) (data : bytes) (size : Z)
    : option (bytes * bytes) :=
  match udpPayload_loop fuel None data size with
  | None => None
  | Some (None, _) => Some (data, [])
  | Some (Some head, tail) => Some (head, tail)
  end.

(** [udpPayload]: the loop shortens [tail] at every turn, so
    [length data + 1] turns suffice ([udpPayload_fuel_enough]). *)
Definition udpPayload (data : bytes) (size : Z) : bytes * bytes :=
  match udpPayload_fuel (S (length data)) data size with
  | Some r => r
  | None => (data, [])
  end.

(** What [udpPayload] computes, without the loop: with a positive [size]
    and a first newline at an offset [pos > 0], the head is the bytes before
    that newline and the tail starts with it; in every other case the head
    is all of [data]. *)
Definition udpPayload_closed (data : bytes) (size : Z) : bytes * bytes :=
  let pos := IndexByte data newline in
  if (0 <? size) && (0 <? pos) then (slice_to data pos, slice_from data pos)
  else (data, []).

(** A [net.Conn] seen from the writer: the datagrams handed to [Write] so
    far, and whether the next [Write] fails, which the network decides. *)
Record Conn := mkConn {
  sent : list bytes;
  write_err : list bytes -> bytes -> option error;
  close_err : option error
}.

Definition conn_Write (c : Conn) (b : bytes) : Conn * option error :=
  (mkConn (sent c ++ [b]) (write_err c) (close_err c), write_err c (sent c) b).

Definition conn_Close (c : Conn) : Conn * option error := (c, close_err c).

(** The [for] loop of [udpWrite]; [data] is the whole payload, [tail] the
    part not yet split off. *)
Fixpoint udpWrite_loop (fuel : nat) (c : Conn) (data tail : bytes) (size : Z)
    : option (Conn * option error) :=
  match fuel with
  | O => None
  | S fuel' =>
      let '(head, tail') := udpPayload tail size in
      if len head =? 0 then Some (c, None)
      else
        match conn_Write c data with
        | (c', Some err) => Some (c', Some err)
        | (c', None) => udpWrite_loop fuel' c' data tail' size
        end
  end.

Definition udpWrite_fuel (fuel : nat) (c : Conn) (data : bytes) (size : Z)
    : option (Conn * option error) :=
  udpWrite_loop fuel c data data size.

(** The heads that successive calls of [udpPayload] split off, up to the
    first empty one: the chunks of the payload. *)
Fixpoint chunks_fuel (fuel : nat) (tail : bytes) (size : Z) : option (list bytes) :=
  match fuel with
  | O => None
  | S fuel' =>
      let '(head, tail') := udpPayload tail size in
      if len head =? 0 then Some []
      else option_map (cons head) (chunks_fuel fuel' tail' size)
  end.

Definition chunks (data : bytes) (size : Z) : list bytes :=
  match chunks_fuel (S (length data)) data size with
  | Some cs => cs
  | None => []
  end.

(** The unprocessed remainder after [n] turns of the write loop. *)
Fixpoint remainder (n : nat) (data : bytes) (size : Z) : bytes :=
  match n with
  | O => data
  | S n' => remainder n' (snd (udpPayload data size)) size
  end.

End UDP.

(* ------------------------------------------------------------------ *)
(** ** The fragment of Go's regexp that [rxInsert] uses *)

Module Regexp.

(** Syntax. Repetition is only ever applied to a one-byte class in
    [rxInsert], so [Plus] and [Star] take the class. *)
Inductive regex :=
| Empty                               (* matches the empty string *)
| BeginText                           (* ^ without the m flag *)
| Class (p : ascii -> bool)           (* one byte of a class, or a literal *)
| FoldLit (c : ascii)                 (* a literal letter under the i flag *)
| Cat (r1 r2 : regex)
| Plus (p : ascii -> bool)            (* p+, greedy *)
| Star (p : ascii -> bool)            (* p*, greedy *)
| Group (n : nat) (r : regex).        (* capturing group number n *)

Definition code (a : ascii) : Z := Z.of_N (N_of_ascii a).
Definition chr (n : Z) : ascii := ascii_of_N (Z.to_N n).

Definition in_range (lo hi : Z) (a : ascii) : bool :=
  (lo <=? code a) && (code a <=? hi).

Definition is_upper : ascii -> bool := in_range 65 90.
Definition is_lower : ascii -> bool := in_range 97 122.
Definition is_digit : ascii -> bool := in_range 48 57.
Definition to_upper (a : ascii) : ascii :=
  if is_lower a then chr (code a - 32) else a.
Definition to_lower (a : ascii) : ascii :=
  if is_upper a then chr (code a + 32) else a.

(** [\s] is [[\t\n\f\r ]]. *)
Definition is_space (a : ascii) : bool :=
  (code a =? 9) || (code a =? 10) || (code a =? 12) || (code a =? 13)
  || (code a =? 32).

(** [[a-zA-Z0-9_\-]]. *)
Definition is_ident (a : ascii) : bool :=
  is_lower a || is_upper a || is_digit a || (code a =? 95) || (code a =? 45).

(** [.] without the s flag: anything but a newline. *)
Definition not_newline (a : ascii) : bool := negb (Ascii.eqb a newline).

Definition is_dot (a : ascii) : bool := Ascii.eqb a "."%char.

(** The UTF-8 encodings of the runes that a letter matches under the i
    flag: the orbit of the letter under Unicode simple case folding. Beside
    the two ASCII cases, s folds to U+017F (long s) and k to U+212A
    (Kelvin sign). *)
Definition fold_orbit (c : ascii) : list bytes :=
  if is_upper c || is_lower c then
    [[to_upper c]; [to_lower c]]
    ++ (if Ascii.eqb (to_upper c) "S"%char then [[chr 197; chr 191]]
        else if Ascii.eqb (to_upper c) "K"%char then [[chr 226; chr 132; chr 170]]
        else [])
  else [[c]].

(** [strip_prefix p s] is [Some s'] when [s = p ++ s']. *)
Fixpoint strip_prefix (p s : bytes) : option bytes :=
  match p, s with
  | [], _ => Some s
  | a :: p', b :: s' => if Ascii.eqb a b then strip_prefix p' s' else None
  | _ :: _, [] => None
  end.

(** Capture positions: group number to (start, end) offsets in the text. *)
Definition caps := list (nat * (nat * nat)).

Fixpoint cap_lookup (n : nat) (c : caps) : option (nat * nat) :=
  match c with
  | [] => None
  | (m, ij) :: c' => if Nat.eqb n m then Some ij else cap_lookup n c'
  end.

(** The rest of a match: what to do at offset [i] with [s] left. *)
Definition cont := nat -> bytes -> caps -> option caps.

(** Greedy repetition of a class: take one more byte first, and fall back
    to stopping here when the rest of the match fails. *)
Fixpoint star (p : ascii -> bool) (i : nat) (s : bytes) (c : caps) (k : cont)
    : option caps :=
  match s with
  | a :: s' =>
      if p a then
        match star p (S i) s' c k with
        | Some r => Some r
        | None => k i s c
        end
      else k i s c
  | [] => k i s c
  end.

(** The alternatives of a folded literal, tried in order. *)
Fixpoint alts (es : list bytes) (i : nat) (s : bytes) (c : caps) (k : cont)
    : option caps :=
  match es with
  | [] => None
  | e :: es' =>
      match strip_prefix e s with
      | Some s' =>
          match k (i + length e)%nat s' c with
          | Some r => Some r
          | None => alts es' i s c k
          end
      | None => alts es' i s c k
      end
  end.

(** Backtracking match of [r] at offset [i], where [s] is the text from
    [i] on; leftmost-first like Go's. *)
Fixpoint rx_match (r : regex) (i : nat) (s : bytes) (c : caps) (k : cont)
    : option caps :=
  match r with
  | Empty => k i s c
  | BeginText => if Nat.eqb i 0 then k i s c else None
  | Class p =>
      match s with
      | a :: s' => if p a then k (S i) s' c else None
      | [] => None
      end
  | FoldLit ch => alts (fold_orbit ch) i s c k
  | Cat r1 r2 => rx_match r1 i s c (fun i' s' c' => rx_match r2 i' s' c' k)
  | Plus p =>
      match s with
      | a :: s' => if p a then star p (S i) s' c k else None
      | [] => None
      end
  | Star p => star p i s c k
  | Group n r' =>
      rx_match r' i s c (fun i' s' c' => k i' s' ((n, (i, i')) :: c'))
  end.

(** The leftmost match: start offsets are tried from [i] upwards. *)
Fixpoint find_from (r : regex) (i : nat) (s : bytes) : option caps :=
  match rx_match r i s [] (fun j _ c => Some ((O, (i, j)) :: c)) with
  | Some c => Some c
  | None =>
      match s with
      | [] => None
      | _ :: s' => find_from r (S i) s'
      end
  end.

Definition substr (text : bytes) (ij : nat * nat) : bytes :=
  take (snd ij - fst ij)%nat (drop (fst ij) text).

(** [FindStringSubmatch] of a regex with [ngroups] capturing groups: nil
    when there is no match, else the match and the text of each group. *)
Definition FindStringSubmatch (r : regex) (ngroups : nat) (text : bytes)
    : list bytes :=
  match find_from r O text with
  | None => []
  | Some c =>
      map (fun n => match cap_lookup n c with
                    | Some ij => substr text ij
                    | None => []
                    end)
          (seq 0 (S ngroups))
  end.

Fixpoint cats (rs : list regex) : regex :=
  match rs with
  | [] => Empty
  | [r] => r
  | r :: rs' => Cat r (cats rs')
  end.

(** A literal word under the i flag. *)
Definition fold_word (w : bytes) : regex := cats (map FoldLit w).

End Regexp.

(* ------------------------------------------------------------------ *)
(** ** Points, batches, queries and responses (the client's types) *)

(** [models.Point] is outside the repository: the type of points and their
    line-protocol text at a precision are parameters. *)
Class Models (Point : Type) := {
  PrecisionString : Point -> bytes -> bytes
}.

Record WriteConfig := mkWriteConfig {
  wc_Precision : bytes;
  wc_Database : bytes;
  wc_RetentionPolicy : bytes;
  wc_WriteConsistency : bytes
}.

(** [&WriteConfig{Database: db}]: the other fields are zero. *)
Definition WriteConfig_for (db : bytes) : WriteConfig :=
  mkWriteConfig [] db [] [].

Record BatchPoints (Point : Type) := mkBatchPoints {
  points : list Point
}.
Arguments mkBatchPoints {Point} _.
Arguments points {Point} _.

Definition AddPoint {Point} (bp : BatchPoints Point) (p : Point) : BatchPoints Point :=
  mkBatchPoints (points bp ++ [p]).

Definition AddPoints {Point} (bp : BatchPoints Point) (ps : list Point)
    : BatchPoints Point :=
  mkBatchPoints (points bp ++ ps).

Definition Points {Point} (bp : BatchPoints Point) : list Point := points bp.

(** [BatchPoints.Bytes]: each point's text followed by a newline. *)
Definition Bytes {Point} `{Models Point} (bp : BatchPoints Point)
    (precision : bytes) : bytes :=
  fold_left (fun b p => b ++ PrecisionString p precision ++ [newline])
            (Points bp) [].

Record Query := mkQuery {
  q_Command : bytes;
  q_Database : bytes;
  q_Precision : bytes
}.

Definition NewQuery (command database precision : bytes) : Query :=
  mkQuery command database precision.

Record Message := mkMessage { Level : bytes; Text : bytes }.

(** A [Result]; the rows of [Series] are [models.Row] values, kept as
    their text. *)
Record Result := mkResult {
  Series : list bytes;
  Messages : list Message;
  r_Err : bytes
}.

Record Response := mkResponse {
  Results : list Result;
  Err : bytes
}.

Definition len_results (r : Response) : Z := Z.of_nat (length (Results r)).

Definition is_empty (b : bytes) : bool :=
  match b with [] => true | _ => false end.

(** The format string that [fmt.Errorf(s)] is given when [s] is data. *)
Definition as_format (b : bytes) : string := string_of_list_ascii b.

(** [Response.Error]: the top-level error, else the first statement error. *)
Definition Response_Error (r : Response) : option error :=
  if negb (is_empty (Err r)) then Some (fmt_Errorf (as_format (Err r)) [])
  else
    match filter (fun res => negb (is_empty (r_Err res))) (Results r) with
    | res :: _ => Some (fmt_Errorf (as_format (r_Err res)) [])
    | [] => None
    end.

(** The [Client] interface. A client value carries the state of its
    transport, so every method returns the client it leaves behind. *)
Class Client (C : Type) := {
  Client_Ping : C -> Z -> C * (Z * bytes * option error);
  Client_Write : C -> bytes -> WriteConfig -> C * option error;
  Client_Query : C -> Query -> C * (option Response * option error);
  Client_Close : C -> C * option error
}.

(** The UDP client. *)
Record udpclient := mk_udpclient {
  uc_conn : UDP.Conn;
  payloadSize : Z
}.

(** [udpWrite]: [length data + 2] turns suffice ([udpWrite_fuel_enough]). *)
Definition udpWrite (c : UDP.Conn) (data : bytes) (size : Z)
    : UDP.Conn * option error :=
  match UDP.udpWrite_fuel (S (S (length data))) c data size with
  | Some r => r
  | None => (c, None)
  end.

#[export] Instance udpclient_Client : Client udpclient := {
  Client_Ping uc timeout := (uc, (0, [], None));
  Client_Write uc lineData cfg :=
    let '(conn', err) := udpWrite (uc_conn uc) lineData (payloadSize uc) in
    (mk_udpclient conn' (payloadSize uc), err);
  Client_Query uc q :=
    (uc, (None, Some (fmt_Errorf "Querying via UDP is not supported" [])));
  Client_Close uc :=
    let '(conn', err) := UDP.conn_Close (uc_conn uc) in
    (mk_udpclient conn' (payloadSize uc), err)
}.

(* ------------------------------------------------------------------ *)
(** ** The HTTP client (http.go) *)

Fixpoint eqb_bytes (a b : bytes) : bool :=
  match a, b with
  | [], [] => true
  | x :: a', y :: b' => Ascii.eqb x y && eqb_bytes a' b'
  | _, _ => false
  end.

(** [url.Values]. *)
Definition Values := gmap bytes (list bytes).

Definition Values_Get (v : Values) (key : bytes) : bytes :=
  match v !! key with
  | Some (x :: _) => x
  | _ => []
  end.

Definition Values_Set (v : Values) (key value : bytes) : Values :=
  <[key := [value]]> v.

Record Userinfo := mkUserinfo {
  Username : bytes;
  Password : option bytes          (* [None]: no password set *)
}.

(** A parsed [url.URL]; [RawQuery] is kept as the values it parses to. *)
Record URL := mkURL {
  Scheme : bytes;
  User : option Userinfo;
  Host : bytes;
  Path : bytes;
  RawQuery : Values
}.

Definition with_Path (u : URL) (p : bytes) : URL :=
  mkURL (Scheme u) (User u) (Host u) p (RawQuery u).

Definition with_RawQuery (u : URL) (v : Values) : URL :=
  mkURL (Scheme u) (User u) (Host u) (Path u) v.

Record Request := mkRequest {
  Method : string;
  req_URL : URL;
  ContentType : bytes;
  UserAgentHeader : bytes;
  BasicAuth : option (bytes * bytes);
  Body : bytes
}.

(** What the network answers: the status, the body, the error that reading
    the body ends with if any, the X-Influxdb-Version header and the time
    the round trip took. *)
Record HTTPResponse := mkHTTPResponse {
  StatusCode : Z;
  resp_Body : bytes;
  resp_BodyErr : option error;
  resp_Version : bytes;
  resp_Elapsed : Z
}.

Definition StatusOK : Z := 200.
Definition StatusNoContent : Z := 204.

(** The libraries and the network that the repository calls into. *)
Class GoLib := {
  (* net/url *)
  url_Parse : bytes -> URL + error;
  (* time: the duration in nanoseconds, 0 with the error *)
  time_ParseDuration : bytes -> Z * option error;
  (* fmt.Sprintf("%.0fs", d.Seconds()) *)
  format_seconds : Z -> bytes;
  (* net/http: the error of building a request, and the round trip given
     the requests made before *)
  http_NewRequest : string -> URL -> option error;
  http_RoundTrip : list Request -> Request -> HTTPResponse + error;
  (* encoding/json with UseNumber: the response as the decoder leaves it
     and the text of the decoder's error *)
  json_Decode : bytes -> option error -> Response * option bytes;
  (* net: dialling a UDP address *)
  net_DialUDP : bytes -> UDP.Conn + error
}.

Record HTTPConfig := mkHTTPConfig {
  Addr : bytes;
  cfg_Username : bytes;
  cfg_Password : bytes;
  UserAgent : bytes;
  Timeout : Z;
  InsecureSkipVerify : bool
}.

Record httpClient := mk_httpClient {
  url : URL;
  username : bytes;
  password : bytes;
  useragent : bytes;
  timeout : Z;
  skip_verify : bool;
  requests : list Request            (* the requests made so far *)
}.

Definition with_requests (c : httpClient) (rs : list Request) : httpClient :=
  mk_httpClient (url c) (username c) (password c) (useragent c) (timeout c)
    (skip_verify c) rs.

Section HTTP.
Context `{GoLib}.

Definition NewHTTPClient (conf : HTTPConfig) : httpClient + error :=
  let useragent :=
    if is_empty (UserAgent conf) then B "InfluxDBClient" else UserAgent conf in
  match url_Parse (Addr conf) with
  | inr err => inr err
  | inl u =>
      if negb (eqb_bytes (Scheme u) (B "http"))
         && negb (eqb_bytes (Scheme u) (B "https"))
      then inr (fmt_Errorf
        "Unsupported protocol scheme: %s, your address must start with http:// or https://"
        [ArgStr (Scheme u)])
      else inl (mk_httpClient u (cfg_Username conf) (cfg_Password conf)
                  useragent (Timeout conf) (InsecureSkipVerify conf) [])
  end.

(** [c.httpClient.Do(req)]. *)
Definition Do (c : httpClient) (req : Request)
    : httpClient * (HTTPResponse + error) :=
  (with_requests c (requests c ++ [req]), http_RoundTrip (requests c) req).

Definition basic_auth (c : httpClient) : option (bytes * bytes) :=
  if is_empty (username c) then None else Some (username c, password c).

(** [ioutil.ReadAll(resp.Body)]. *)
Definition ReadAll (resp : HTTPResponse) : bytes + error :=
  match resp_BodyErr resp with
  | Some err => inr err
  | None => inl (resp_Body resp)
  end.

Definition httpClient_Ping (c : httpClient) (timeout : Z)
    : httpClient * (Z * bytes * option error) :=
  let u := with_Path (url c) (B "ping") in
  match http_NewRequest "GET" u with
  | Some err => (c, (0, [], Some err))
  | None =>
      let params := RawQuery u in
      let params :=
        if 0 <? timeout
        then Values_Set params (B "wait_for_leader") (format_seconds timeout)
        else params in
      let req := mkRequest "GET" (with_RawQuery u params) [] (useragent c)
                   (basic_auth c) [] in
      match Do c req with
      | (c', inr err) => (c', (0, [], Some err))
      | (c', inl resp) =>
          match ReadAll resp with
          | inr err => (c', (0, [], Some err))
          | inl body =>
              if negb (StatusCode resp =? StatusNoContent)
              then (c', (0, [], Some (fmt_Errorf (as_format body) [])))
              else (c', (resp_Elapsed resp, resp_Version resp, None))
          end
      end
  end.

Definition httpClient_Write (c : httpClient) (lineData : bytes)
    (cfg : WriteConfig) : httpClient * option error :=
  let u := with_Path (url c) (B "write") in
  match http_NewRequest "POST" u with
  | Some err => (c, Some err)
  | None =>
      let params := Values_Set (RawQuery u) (B "db") (wc_Database cfg) in
      let params :=
        if negb (is_empty (wc_RetentionPolicy cfg))
        then Values_Set params (B "rp") (wc_RetentionPolicy cfg) else params in
      let params :=
        if negb (is_empty (wc_Precision cfg))
        then Values_Set params (B "precision") (wc_Precision cfg) else params in
      let params :=
        if negb (is_empty (wc_WriteConsistency cfg))
        then Values_Set params (B "consistency") (wc_WriteConsistency cfg)
        else params in
      let req := mkRequest "POST" (with_RawQuery u params) [] (useragent c)
                   (basic_auth c) lineData in
      match Do c req with
      | (c', inr err) => (c', Some err)
      | (c', inl resp) =>
          match ReadAll resp with
          | inr err => (c', Some err)
          | inl body =>
              if negb (StatusCode resp =? StatusNoContent)
                 && negb (StatusCode resp =? StatusOK)
              then (c', Some (fmt_Errorf (as_format body) []))
              else (c', None)
          end
      end
  end.

(** The part of [httpClient.Query] after the round trip: decoding the body
    and deciding between the response and an error. *)
Definition Query_decode (resp : HTTPResponse) : option Response * option error :=
  let '(response, decErr) := json_Decode (resp_Body resp) (resp_BodyErr resp) in
  (* ignore this error if we got an invalid status code *)
  let decErr :=
    match decErr with
    | Some msg =>
        if eqb_bytes msg (B "EOF") && negb (StatusCode resp =? StatusOK)
        then None else Some msg
    | None => None
    end in
  match decErr with
  | Some msg =>
      (* If we got a valid decode error, send that back *)
      (None, Some (fmt_Errorf
         "unable to decode json: received status code %d err: %s"
         [ArgInt (StatusCode resp); ArgStr msg]))
  | None =>
      if negb (StatusCode resp =? StatusOK)
         && negb (bool_decide (is_Some (Response_Error response)))
      then (Some response,
            Some (fmt_Errorf "received status code %d from server"
                    [ArgInt (StatusCode resp)]))
      else (Some response, None)
  end.

(** The request that [httpClient.Query] sends for [q]. *)
Definition Query_request (c : httpClient) (q : Query) : Request :=
  let u := with_Path (url c) (B "query") in
  let params := Values_Set (RawQuery u) (B "q") (q_Command q) in
  let params := Values_Set params (B "db") (q_Database q) in
  let params :=
    if negb (is_empty (q_Precision q))
    then Values_Set params (B "epoch") (q_Precision q) else params in
  mkRequest "POST" (with_RawQuery u params) [] (useragent c) (basic_auth c) [].

Definition httpClient_Query (c : httpClient) (q : Query)
    : httpClient * (option Response * option error) :=
  match http_NewRequest "POST" (with_Path (url c) (B "query")) with
  | Some err => (c, (None, Some err))
  | None =>
      match Do c (Query_request c q) with
      | (c', inr err) => (c', (None, Some err))
      | (c', inl resp) => (c', Query_decode resp)
      end
  end.

(** [httpClient.Close] only releases idle connections. *)
Definition httpClient_Close (c : httpClient) : httpClient * option error :=
  (c, None).

#[export] Instance httpClient_Client : Client httpClient := {
  Client_Ping := httpClient_Ping;
  Client_Write := httpClient_Write;
  Client_Query := httpClient_Query;
  Client_Close := httpClient_Close
}.

(** [NewUDPClient]. *)
Definition NewUDPClient (addr : bytes) (size : Z) : udpclient + error :=
  match net_DialUDP addr with
  | inr err => inr err
  | inl conn =>
      let payloadSize := if size =? 0 then UDP.UDPPayloadSize else size in
      inl (mk_udpclient conn payloadSize)
  end.

End HTTP.

(* ------------------------------------------------------------------ *)
(** ** The driver (influx.go) *)

(** Pointers are locations; [*conn], [*tx] and [*BatchPoints] values live in
    the store. *)
Definition loc := positive.

Record conn (C : Type) := mk_conn {
  conn_c : C;
  conn_database : bytes;
  conn_precision : bytes;
  conn_tx : option loc               (* [*tx], [None] is nil *)
}.
Arguments mk_conn {C} _ _ _ _.
Arguments conn_c {C} _.
Arguments conn_database {C} _.
Arguments conn_precision {C} _.
Arguments conn_tx {C} _.

Record tx := mk_tx {
  tx_conn : loc;                     (* [*conn] *)
  tx_bp : loc                        (* [*BatchPoints] *)
}.

Record store (C Point : Type) := mk_store {
  conns : gmap loc (conn C);
  txs : gmap loc tx;
  batches : gmap loc (BatchPoints Point)
}.
Arguments mk_store {C Point} _ _ _.
Arguments conns {C Point} _.
Arguments txs {C Point} _.
Arguments batches {C Point} _.

Definition empty_store {C Point} : store C Point := mk_store ∅ ∅ ∅.

Record stmt := mk_stmt {
  stmt_conn : loc;
  stmt_query : bytes
}.

Record insertStmt := mk_insertStmt {
  ins_conn : loc;
  ins_db : bytes;
  ins_query : bytes
}.

(** The [driver.Stmt] values that [newStmt] returns. *)
Inductive Stmt :=
| GenericStmt (s : stmt)
| InsertStmt (s : insertStmt).

Record result := mk_result {
  lastInsertedID : Z;
  rowsAffected : Z
}.

(** A call returns a value and the store it leaves, or panics. *)
Inductive outcome (A : Type) :=
| Ret (a : A)
| Panic (msg : string).
Arguments Ret {A} _.
Arguments Panic {A} _.

Definition M (St A : Type) : Type := St -> outcome (A * St).

Definition ret {St A} (a : A) : M St A := fun s => Ret (a, s).

Definition bind {St A B} (m : M St A) (k : A -> M St B) : M St B :=
  fun s =>
    match m s with
    | Ret (a, s') => k a s'
    | Panic msg => Panic msg
    end.

Definition panic {St A} (msg : string) : M St A := fun _ => Panic msg.

#[export] Instance M_ret {St} : MRet (M St) := fun A => @ret St A.
#[export] Instance M_bind {St} : MBind (M St) := fun A B k m => @bind St A B m k.

Definition nil_deref : string :=
  "invalid memory address or nil pointer dereference".

(** The compiled pattern [^(?i:INSERT\s+INTO)\s+([a-zA-Z0-9_\-]+)\.( .* )]
    (the last group is written here with spaces around its body). *)
Definition rxInsert : Regexp.regex :=
  Regexp.cats
    [ Regexp.BeginText;
      Regexp.cats [ Regexp.fold_word (B "INSERT");
                    Regexp.Plus Regexp.is_space;
                    Regexp.fold_word (B "INTO") ];
      Regexp.Plus Regexp.is_space;
      Regexp.Group 1 (Regexp.Plus Regexp.is_ident);
      Regexp.Class Regexp.is_dot;
      Regexp.Group 2 (Regexp.Star Regexp.not_newline) ].

Definition newStmt (conn : loc) (query : bytes) : Stmt * option error :=
  let m := Regexp.FindStringSubmatch rxInsert 2 query in
  if negb (length m =? 3)%nat then
    (GenericStmt (mk_stmt conn query), None)
  else
    let db := nth 1 m [] in
    let insertQuery := nth 2 m [] in
    (InsertStmt (mk_insertStmt conn db insertQuery), None).

Definition conn_Prepare (c : loc) (query : bytes) : Stmt * option error :=
  newStmt c query.

Section Driver.
Context {C Point : Type} `{Client C} `{Models Point}.

Local Abbreviation St := (store C Point).

(** Loads and stores through a pointer; a location that holds nothing
    behaves as a nil pointer. *)
Definition load_conn (l : loc) : M St (conn C) :=
  fun s => match conns s !! l with
           | Some v => Ret (v, s)
           | None => Panic nil_deref
           end.

Definition load_tx (l : loc) : M St tx :=
  fun s => match txs s !! l with
           | Some v => Ret (v, s)
           | None => Panic nil_deref
           end.

Definition load_batch (l : loc) : M St (BatchPoints Point) :=
  fun s => match batches s !! l with
           | Some v => Ret (v, s)
           | None => Panic nil_deref
           end.

Definition store_conn (l : loc) (v : conn C) : M St unit :=
  fun s => Ret (tt, mk_store (<[l := v]> (conns s)) (txs s) (batches s)).

Definition store_tx (l : loc) (v : tx) : M St unit :=
  fun s => Ret (tt, mk_store (conns s) (<[l := v]> (txs s)) (batches s)).

Definition store_batch (l : loc) (v : BatchPoints Point) : M St unit :=
  fun s => Ret (tt, mk_store (conns s) (txs s) (<[l := v]> (batches s))).

(** Allocation takes a location that holds nothing yet. *)
Definition new_conn (v : conn C) : M St loc :=
  fun s => let l := fresh (dom (conns s)) in
           Ret (l, mk_store (<[l := v]> (conns s)) (txs s) (batches s)).

Definition new_tx (v : tx) : M St loc :=
  fun s => let l := fresh (dom (txs s)) in
           Ret (l, mk_store (conns s) (<[l := v]> (txs s)) (batches s)).

Definition new_batch (v : BatchPoints Point) : M St loc :=
  fun s => let l := fresh (dom (batches s)) in
           Ret (l, mk_store (conns s) (txs s) (<[l := v]> (batches s))).

(** [c.c.Write(data, cfg)] on the client of connection [l]. *)
Definition conn_client_Write (l : loc) (data : bytes) (cfg : WriteConfig)
    : M St (option error) :=
  cn ← load_conn l;
  let '(c', err) := Client_Write (conn_c cn) data cfg in
  store_conn l (mk_conn c' (conn_database cn) (conn_precision cn) (conn_tx cn));;
  mret err.

(** [c.c.Query(q)] on the client of connection [l]. *)
Definition conn_client_Query (l : loc) (q : Query)
    : M St (option Response * option error) :=
  cn ← load_conn l;
  let '(c', r) := Client_Query (conn_c cn) q in
  store_conn l (mk_conn c' (conn_database cn) (conn_precision cn) (conn_tx cn));;
  mret r.

Definition conn_Close (l : loc) : M St (option error) :=
  cn ← load_conn l;
  let '(c', err) := Client_Close (conn_c cn) in
  store_conn l (mk_conn c' (conn_database cn) (conn_precision cn) (conn_tx cn));;
  mret err.

(** [c.tx = t]. *)
Definition set_conn_tx (l : loc) (t : option loc) : M St unit :=
  cn ← load_conn l;
  store_conn l (mk_conn (conn_c cn) (conn_database cn) (conn_precision cn) t).

Definition newTx (c : loc) : M St (loc * option error) :=
  b ← new_batch (mkBatchPoints []);
  t ← new_tx (mk_tx c b);
  mret (t, None).

Definition conn_Begin (c : loc) : M St (option loc * option error) :=
  cn ← load_conn c;
  match conn_tx cn with
  | Some _ => mret (None, Some (errors_New "a Tx already begins"))
  | None =>
      '(t, err) ← newTx c;
      set_conn_tx c (Some t);;
      mret (Some t, err)
  end.

Definition tx_Commit (t : loc) : M St (option error) :=
  T ← load_tx t;
  bp ← load_batch (tx_bp T);
  cn ← load_conn (tx_conn T);
  err ← conn_client_Write (tx_conn T) (Bytes bp (B "ns"))
          (WriteConfig_for (conn_database cn));
  set_conn_tx (tx_conn T) None;;
  mret err.

Definition tx_Rollback (t : loc) : M St (option error) :=
  T ← load_tx t;
  b ← new_batch (mkBatchPoints []);
  store_tx t (mk_tx (tx_conn T) b);;
  set_conn_tx (tx_conn T) None;;
  mret None.

(** Adding points to the batch of a transaction: [t.bp.AddPoints(ps)]. *)
Definition tx_AddPoints (t : loc) (ps : list Point) : M St unit :=
  T ← load_tx t;
  bp ← load_batch (tx_bp T);
  store_batch (tx_bp T) (AddPoints bp ps).

Definition insertStmt_Exec (s : insertStmt)
    : M St (option result * option error) :=
  err ← conn_client_Write (ins_conn s) (ins_query s) (WriteConfig_for (ins_db s));
  mret (Some (mk_result 0 0), err).

Definition stmt_Exec (s : stmt) : M St (option result * option error) :=
  cn ← load_conn (stmt_conn s);
  '(resp, err) ← conn_client_Query (stmt_conn s)
      (NewQuery (stmt_query s) (conn_database cn) (conn_precision cn));
  match err with
  | Some e => mret (None, Some e)
  | None =>
      match resp with
      | None => panic nil_deref
      | Some r =>
          match Response_Error r with
          | Some e => mret (None, Some e)
          | None => mret (Some (mk_result 0 (len_results r)), None)
          end
      end
  end.

Definition Stmt_Exec (s : Stmt) : M St (option result * option error) :=
  match s with
  | GenericStmt s' => stmt_Exec s'
  | InsertStmt s' => insertStmt_Exec s'
  end.

Definition Stmt_Query (s : Stmt) : M St unit := panic "not supported yet".

End Driver.

(** [strings.TrimPrefix]. *)
Definition TrimPrefix (s prefix : bytes) : bytes :=
  match Regexp.strip_prefix prefix s with
  | Some s' => s'
  | None => s
  end.

Section Open.
Context {Point : Type} `{GoLib}.

(** The client configuration that [Open] derives from a parsed name. *)
Definition open_config (uri : URL) : HTTPConfig :=
  let '(user, password) :=
    match User uri with
    | Some u => (Username u, default [] (Password u))
    | None => ([], [])
    end in
  let query := RawQuery uri in
  let timeout := fst (time_ParseDuration (Values_Get query (B "timeout"))) in
  let addr := B "http://" ++ Host uri in
  mkHTTPConfig addr user password (Values_Get query (B "ua")) timeout false.

Definition open_precision (uri : URL) : bytes :=
  let precision := Values_Get (RawQuery uri) (B "precision") in
  if is_empty precision then B "ns" else precision.

(** [Open]: the connection it returns is allocated in the store. *)
Definition Open (name : bytes)
    : M (store httpClient Point) (option loc * option error) :=
  match url_Parse name with
  | inr err => mret (None, Some err)
  | inl uri =>
      if eqb_bytes (Scheme uri) (B "udp") then
        panic "udp scheme is not supported by the driver"
      else if eqb_bytes (Scheme uri) (B "http") then
        match NewHTTPClient (open_config uri) with
        | inr err => mret (None, Some err)
        | inl c =>
            let database := TrimPrefix (Path uri) (B "/") in
            l ← new_conn (mk_conn c database (open_precision uri) None);
            mret (Some l, None)
        end
      else
        (* TODO: support https, udp *)
        mret (None, Some (fmt_Errorf "unsupported scheme %s" [ArgStr (Scheme uri)]))
  end.

(** [drv.Open]. *)
Definition drv_Open (name : bytes)
    : M (store httpClient Point) (option loc * option error) :=
  Open name.

End Open.

(* ------------------------------------------------------------------ *)
(** ** The statement pattern, in the specification's words *)

Section PatternDefs.
Import Regexp.

(** [t] is the word [w] up to case folding. *)
Fixpoint fold_eqb (w t : bytes) : bool :=
  match w with
  | [] => is_empty t
  | ch :: w' =>
      existsb (fun e => match strip_prefix e t with
                        | Some t' => fold_eqb w' t'
                        | None => false
                        end)
              (fold_orbit ch)
  end.

(** One or more bytes, all in the class [p]. *)
Definition run_of (p : ascii -> bool) (l : bytes) : bool :=
  negb (is_empty l) && forallb p l.

(** The statement pattern in the specification's words: the keyword INSERT,
    white space, the keyword INTO, white space, an identifier, a dot and
    the rest of the text; keywords up to case. *)
Definition insert_pattern (q db rest : bytes) : Prop :=
  exists k1 w1 k2 w2,
    q = k1 ++ w1 ++ k2 ++ w2 ++ db ++ B "." ++ rest
    /\ fold_eqb (B "INSERT") k1 = true
    /\ run_of is_space w1 = true
    /\ fold_eqb (B "INTO") k2 = true
    /\ run_of is_space w2 = true
    /\ run_of is_ident db = true.

(** The bytes before the first newline, and the text from it on. *)
Fixpoint first_line (b : bytes) : bytes :=
  match b with
  | [] => []
  | a :: b' => if not_newline a then a :: first_line b' else []
  end.

Fixpoint after_line (b : bytes) : bytes :=
  match b with
  | [] => []
  | a :: b' => if not_newline a then after_line b' else b
  end.

End PatternDefs.

(** The alternatives of an orbit are not empty and start with different
    bytes, so at most one of them is a prefix of a given text. *)
Fixpoint distinct_heads (es : list bytes) : bool :=
  match es with
  | [] => true
  | [] :: _ => false
  | (a :: _) :: es' =>
      forallb (fun e' => match e' with
                         | [] => false
                         | b :: _ => negb (Ascii.eqb a b)
                         end) es'
      && distinct_heads es'
  end.


(* ------------------------------------------------------------------ *)
(** ** Scenarios and a sample environment *)

Section Scenario.
Context {C Point : Type} `{Client C} `{Models Point}.

(** The line-protocol payload of a list of points at nanosecond
    precision. *)
Definition payload_ns (ps : list Point) : bytes :=
  concat (map (fun p => PrecisionString p (B "ns") ++ [newline]) ps).


(** Roll back transaction [t] of connection [c], begin again, add [ps] to
    the new transaction and commit it. *)
Definition rollback_begin_add_commit (t c : loc) (ps : list Point)
    : M (store C Point) (option error) :=
  tx_Rollback t;;
  '(t', err) ← conn_Begin c;
  match t' with
  | None => mret err
  | Some t' => tx_AddPoints t' ps;; tx_Commit t'
  end.

End Scenario.

(** The lines of a payload, each with the newline that ends it; the last
    one may have none. *)
Fixpoint lines_from (cur b : bytes) : list bytes :=
  match b with
  | [] => match cur with [] => [] | _ => [cur] end
  | a :: b' =>
      if Ascii.eqb a newline then (cur ++ [a]) :: lines_from [] b'
      else lines_from (cur ++ [a]) b'
  end.

Definition lines (b : bytes) : list bytes := lines_from [] b.

Module Sample.

(** Points that are their own line-protocol text at every precision. *)
#[export] Instance text_points : Models bytes := {
  PrecisionString p precision := p
}.

(** A client that records the calls it receives; its writes fail when
    [failing] is set. *)
Inductive call :=
| CallPing (timeout : Z)
| CallWrite (lineData : bytes) (cfg : WriteConfig)
| CallQuery (q : Query)
| CallClose.

Record recorder := mk_recorder {
  calls : list call;
  failing : bool
}.

Definition refused : error := foreign_error (B "connection refused").

#[export] Instance recorder_Client : Client recorder := {
  Client_Ping r timeout :=
    (mk_recorder (calls r ++ [CallPing timeout]) (failing r), (0, [], None));
  Client_Write r lineData cfg :=
    (mk_recorder (calls r ++ [CallWrite lineData cfg]) (failing r),
     if failing r then Some refused else None);
  Client_Query r q :=
    (mk_recorder (calls r ++ [CallQuery q]) (failing r),
     (Some (mkResponse [] []), None));
  Client_Close r :=
    (mk_recorder (calls r ++ [CallClose]) (failing r), None)
}.

(** A store with connection 1 on database mydb, whose transaction 1 is
    open with two points in its batch 1. *)
Definition conn1 (failing : bool) (t : option loc) : conn recorder :=
  mk_conn (mk_recorder [] failing) (B "mydb") (B "ns") t.

Definition tx1 : tx := mk_tx 1%positive 1%positive.

Definition batch1 : BatchPoints bytes :=
  mkBatchPoints [B "cpu value=1 1"; B "cpu value=2 2"].

Definition open_store (failing : bool) : store recorder bytes :=
  mk_store {[ 1%positive := conn1 failing (Some 1%positive) ]}
           {[ 1%positive := tx1 ]}
           {[ 1%positive := batch1 ]}.

(** A store with connection 1 and no transaction. *)
Definition idle_store : store recorder bytes :=
  mk_store {[ 1%positive := conn1 false None ]} ∅ ∅.

Definition dquote : ascii := "034"%char.

(** The error of [url.Parse] on the string that is one colon. *)
Definition missing_scheme : error :=
  foreign_error
    (B "parse " ++ [dquote] ++ B ":" ++ [dquote] ++ B ": missing protocol scheme").

(** What [url.Parse] returns on the connection strings used below; every
    other string is outside the table and gets an error of the table's
    own. *)
Definition parse_table (name : bytes) : URL + error :=
  if eqb_bytes name (B "udp://localhost:8089") then
    inl (mkURL (B "udp") None (B "localhost:8089") [] ∅)
  else if eqb_bytes name (B "http://localhost:8086/mydb?precision=s") then
    inl (mkURL (B "http") None (B "localhost:8086") (B "/mydb")
           {[ B "precision" := [B "s"] ]})
  else if eqb_bytes name (B "http://localhost:8086") then
    inl (mkURL (B "http") None (B "localhost:8086") [] ∅)
  else if eqb_bytes name (B "https://localhost:8086") then
    inl (mkURL (B "https") None (B "localhost:8086") [] ∅)
  else if eqb_bytes name (B ":") then inr missing_scheme
  else inr (foreign_error (B "not in the table")).

(** The JSON text of an empty result set. *)
Definition empty_results : bytes :=
  B "{" ++ [dquote] ++ B "results" ++ [dquote] ++ B ":[]}".

(** What the JSON decoder reports on the bodies used below: EOF on an empty
    body, an empty result set on [empty_results], and the first byte as an
    invalid character on a body that starts no JSON value. *)
Definition decode_table (body : bytes) (err : option error)
    : Response * option bytes :=
  match body with
  | [] => (mkResponse [] [], Some (B "EOF"))
  | a :: _ =>
      if eqb_bytes body empty_results then (mkResponse [] [], None)
      else (mkResponse [] [],
            Some (B "invalid character '" ++ [a]
                  ++ B "' looking for beginning of value"))
  end.

(** An environment whose server answers every request with [answer]. *)
Definition lib (answer : HTTPResponse + error) : GoLib := {|
  url_Parse := parse_table;
  time_ParseDuration := fun _ => (0, Some (foreign_error (B "time: invalid duration")));
  format_seconds := fun _ => B "0s";
  http_NewRequest := fun _ _ => None;
  http_RoundTrip := fun _ _ => answer;
  json_Decode := decode_table;
  net_DialUDP := fun _ => inr refused
|}.

Definition server_error (body : bytes) : HTTPResponse + error :=
  inl (mkHTTPResponse 500 body None [] 0).

Definition client : httpClient :=
  mk_httpClient (mkURL (B "http") None (B "localhost:8086") [] ∅)
    [] [] (B "InfluxDBClient") 0 false [].

End Sample.

(** ** Sample payloads and statements *)

(** The payload of three one-byte lines a, b and c. *)
Definition three_lines : bytes :=
  B "a" ++ [newline] ++ B "b" ++ [newline] ++ B "c" ++ [newline].

(** An insert statement of two lines. *)
Definition two_line_insert : bytes :=
  B "INSERT INTO mydb.cpu value=1" ++ [newline] ++ B "cpu value=2".


(* ------------------------------------------------------------------ *)
(** ** Well-formed stores and further scenarios *)

Section StoreInvariant.
Context {C Point : Type}.

(** The pointers of a transaction lead somewhere. *)
Definition tx_ok (s : store C Point) (T : tx) : Prop :=
  is_Some (conns s !! tx_conn T) /\ is_Some (batches s !! tx_bp T).

(** A store is well formed when every transaction in it points to a
    connection and a batch of the store, and the transaction slot of every
    connection holds a transaction of the store that points back to that
    connection. *)
Definition wf_store (s : store C Point) : Prop :=
  (forall t T, txs s !! t = Some T -> tx_ok s T)
  /\ (forall c cn t,
        conns s !! c = Some cn -> conn_tx cn = Some t ->
        exists T, txs s !! t = Some T /\ tx_conn T = c).

End StoreInvariant.

Section MoreScenarios.
Context {C Point : Type} `{Client C} `{Models Point}.

(** Begin on connection [c] and commit the transaction at once. *)
Definition begin_commit (c : loc) : M (store C Point) (option error) :=
  '(t, err) ← conn_Begin c;
  match t with
  | None => mret err
  | Some t => tx_Commit t
  end.

(** Commit the same transaction twice. *)
Definition commit_twice (t : loc)
    : M (store C Point) (option error * option error) :=
  e1 ← tx_Commit t;
  e2 ← tx_Commit t;
  mret (e1, e2).

End MoreScenarios.

Section OpenScenario.
Context {Point : Type} `{GoLib}.

(** Open a connection and begin a transaction on it. *)
Definition open_begin (name : bytes)
    : M (store httpClient Point) (option loc * option error) :=
  '(l, err) ← Open name;
  match l with
  | None => mret (None, err)
  | Some l => conn_Begin l
  end.

(** The request that [httpClient.Write] sends for [lineData] and [cfg].
    [req_URL] is the URL [u] as the method assembles it, with the path it
    assigns and the parameters it sets; the text that [u.String()] renders
    from it is not modelled. *)
Definition Write_request (c : httpClient) (lineData : bytes)
    (cfg : WriteConfig) : Request :=
  let u := with_Path (url c) (B "write") in
  let params := Values_Set (RawQuery u) (B "db") (wc_Database cfg) in
  let params :=
    if negb (is_empty (wc_RetentionPolicy cfg))
    then Values_Set params (B "rp") (wc_RetentionPolicy cfg) else params in
  let params :=
    if negb (is_empty (wc_Precision cfg))
    then Values_Set params (B "precision") (wc_Precision cfg) else params in
  let params :=
    if negb (is_empty (wc_WriteConsistency cfg))
    then Values_Set params (B "consistency") (wc_WriteConsistency cfg)
    else params in
  mkRequest "POST" (with_RawQuery u params) [] (useragent c) (basic_auth c)
    lineData.

End OpenScenario.

Module Fixtures.

(** A UDP connection on which no write fails, and one on which every write
    fails. *)
Definition quiet_conn : UDP.Conn := UDP.mkConn [] (fun _ _ => None) None.

Definition dead_conn : UDP.Conn :=
  UDP.mkConn [] (fun _ _ => Some Sample.refused) None.

(** A store whose connection 1 talks UDP. *)
Definition udp_store : store udpclient bytes :=
  mk_store
    {[ 1%positive := mk_conn (mk_udpclient quiet_conn 512) (B "mydb") (B "ns") None ]}
    ∅ ∅.

(** A store whose connection 1 talks HTTP. *)
Definition http_store : store httpClient bytes :=
  mk_store {[ 1%positive := mk_conn Sample.client (B "mydb") (B "ns") None ]} ∅ ∅.

(** A response with one failed statement after a good one. *)
Definition failed_second : Response :=
  mkResponse [mkResult [] [] []; mkResult [] [] (B "database not found")] [].

End Fixtures.

(* ================================================================== *)
(** * Properties *)

(* ------------------------------------------------------------------ *)
(** ** The UDP chunker *)

Section UDPFacts.
Import UDP.

Lemma IndexByte_range (b : bytes) (c : ascii) :
  IndexByte b c = -1 \/ 0 <= IndexByte b c < len b.
Proof.
  unfold len. induction b as [|x b IH]; simpl; [now left|].
  destruct (Ascii.eqb x c); [right; lia|].
  destruct (IndexByte b c <? 0) eqn:E; [now left|].
  apply Z.ltb_ge in E. right. lia.
Qed.

Lemma IndexByte_drop (b : bytes) (c : ascii) :
  0 <= IndexByte b c -> IndexByte (slice_from b (IndexByte b c)) c = 0.
Proof.
  unfold slice_from. induction b as [|x b IH]; simpl; [lia|].
  destruct (Ascii.eqb x c) eqn:Ex; simpl; [now rewrite Ex|].
  destruct (IndexByte b c <? 0) eqn:E; [lia|]. intros _.
  apply Z.ltb_ge in E.
  replace (Z.to_nat (IndexByte b c + 1)) with (S (Z.to_nat (IndexByte b c))) by lia.
  simpl. now apply IH.
Qed.

Lemma slice_app (b : bytes) (pos : Z) : slice_to b pos ++ slice_from b pos = b.
Proof. apply take_drop. Qed.

Lemma slice_to_length (b : bytes) (pos : Z) :
  0 <= pos <= len b -> len (slice_to b pos) = pos.
Proof. unfold len, slice_to. intros Hp. rewrite length_take. lia. Qed.

Lemma udpPayload_fuel_enough (fuel : nat) (data : bytes) (size : Z) :
  (2 <= fuel)%nat -> udpPayload_fuel fuel data size = Some (udpPayload_closed data size).
Proof.
  intros Hf. destruct fuel as [|[|fuel]]; [lia|lia|].
  unfold udpPayload_fuel, udpPayload_closed. cbn [udpPayload_loop len_opt].
  destruct (0 <? size) eqn:Es; cbn [andb]; [|reflexivity].
  destruct (0 <? IndexByte data newline) eqn:Ep; [|reflexivity].
  apply Z.ltb_lt in Ep.
  rewrite IndexByte_drop by lia. cbn [Z.ltb Z.compare].
  destruct (IndexByte_range data newline) as [Hr|Hr]; [lia|].
  assert (Hl : len (slice_to data (IndexByte data newline)) = IndexByte data newline)
    by (apply slice_to_length; lia).
  destruct (slice_to data (IndexByte data newline)) as [|a h] eqn:Eh.
  - unfold len in Hl. simpl in Hl. lia.
  - cbn [go_append]. destruct (len_opt _ <? size); reflexivity.
Qed.

Lemma udpPayload_eq (data : bytes) (size : Z) :
  udpPayload data size = udpPayload_closed data size.
Proof.
  unfold udpPayload.
  destruct data as [|a data].
  - unfold udpPayload_closed, udpPayload_fuel. simpl. now destruct (0 <? size).
  - rewrite udpPayload_fuel_enough; [reflexivity | simpl; lia].
Qed.

Lemma udpPayload_app (data : bytes) (size : Z) :
  fst (udpPayload data size) ++ snd (udpPayload data size) = data.
Proof.
  rewrite udpPayload_eq. unfold udpPayload_closed.
  destruct ((0 <? size) && (0 <? IndexByte data newline)); simpl.
  - apply slice_app.
  - apply app_nil_r.
Qed.

Lemma udpPayload_head_nil (data : bytes) (size : Z) :
  len (fst (udpPayload data size)) = 0 <-> data = [].
Proof.
  rewrite udpPayload_eq. unfold udpPayload_closed.
  destruct (0 <? size); cbn [andb].
  - destruct (0 <? IndexByte data newline) eqn:Ep; cbn [fst].
    + apply Z.ltb_lt in Ep.
      destruct (IndexByte_range data newline) as [Hr|Hr]; [lia|].
      rewrite slice_to_length by lia. split; [lia|].
      intros ->. simpl in Ep. lia.
    + unfold len. destruct data; simpl; split; (congruence || lia).
  - cbn [fst]. unfold len. destruct data; simpl; split; (congruence || lia).
Qed.

Lemma udpPayload_progress (data : bytes) (size : Z) :
  data <> [] ->
  (length (snd (udpPayload data size)) < length data)%nat.
Proof.
  intros Hd.
  assert (Hh : len (fst (udpPayload data size)) <> 0)
    by (rewrite udpPayload_head_nil; exact Hd).
  pose proof (udpPayload_app data size) as Ha.
  apply (f_equal (@length ascii)) in Ha. rewrite length_app in Ha.
  unfold len in Hh. lia.
Qed.

(** The second turn of the write loop always takes all that is left. *)
Lemma udpPayload_tail_whole (data : bytes) (size : Z) :
  udpPayload (snd (udpPayload data size)) size = (snd (udpPayload data size), []).
Proof.
  rewrite !udpPayload_eq.
  set (t := snd (udpPayload_closed data size)).
  assert (Ht : (0 <? size) && (0 <? IndexByte t newline) = false).
  { subst t. unfold udpPayload_closed.
    destruct (0 <? size) eqn:Es; [|reflexivity]. cbn [andb].
    destruct (0 <? IndexByte data newline) eqn:Ep; cbn [snd]; [|reflexivity].
    apply Z.ltb_lt in Ep. rewrite IndexByte_drop by lia. reflexivity. }
  unfold udpPayload_closed at 1. now rewrite Ht.
Qed.

Lemma chunks_fuel_enough (fuel : nat) (data : bytes) (size : Z) :
  (length data < fuel)%nat ->
  exists cs, chunks_fuel fuel data size = Some cs /\ concat cs = data.
Proof.
  revert data. induction fuel as [|fuel IH]; intros data Hf; [lia|].
  cbn [chunks_fuel].
  pose proof (udpPayload_app data size) as Ha.
  pose proof (udpPayload_head_nil data size) as Hn.
  destruct (udpPayload data size) as [head tail] eqn:E. cbn [fst snd] in *.
  destruct (len head =? 0) eqn:Eh.
  - apply Z.eqb_eq in Eh. exists []. split; [reflexivity|].
    symmetry. now apply Hn.
  - apply Z.eqb_neq in Eh.
    assert (Hd : data <> []) by (intros Hd; apply Eh, Hn, Hd).
    pose proof (udpPayload_progress data size Hd) as Hp. rewrite E in Hp.
    cbn [snd] in Hp.
    destruct (IH tail) as (cs & Hcs & Hcat); [lia|].
    exists (head :: cs). rewrite Hcs. split; [reflexivity|].
    simpl. now rewrite Hcat.
Qed.

Lemma udpWrite_loop_enough (fuel : nat) (c : Conn) (data tail : bytes) (size : Z) :
  (length tail < fuel)%nat ->
  exists r, udpWrite_loop fuel c data tail size = Some r.
Proof.
  revert c tail. induction fuel as [|fuel IH]; intros c tail Hf; [lia|].
  cbn [udpWrite_loop].
  pose proof (udpPayload_head_nil tail size) as Hn.
  destruct (udpPayload tail size) as [head tail'] eqn:E. cbn [fst] in Hn.
  destruct (len head =? 0) eqn:Eh; [eauto|].
  apply Z.eqb_neq in Eh.
  assert (Hd : tail <> []) by (intros Hd; apply Eh, Hn, Hd).
  pose proof (udpPayload_progress tail size Hd) as Hp. rewrite E in Hp.
  cbn [snd] in Hp.
  destruct (conn_Write c data) as [c' [err|]]; [eauto|].
  apply IH. lia.
Qed.

Lemma remainder_two (data : bytes) (size : Z) : remainder 2 data size = [].
Proof. cbn [remainder]. now rewrite udpPayload_tail_whole. Qed.

End UDPFacts.

(* ------------------------------------------------------------------ *)
(** ** The statement pattern *)


Section RegexpFacts.
Import Regexp.

Lemma strip_prefix_app (e s : bytes) : strip_prefix e (e ++ s) = Some s.
Proof.
  induction e as [|a e IH]; simpl; [reflexivity|].
  now rewrite Ascii.eqb_refl.
Qed.

Lemma strip_prefix_inv (e s s' : bytes) :
  strip_prefix e s = Some s' -> s = e ++ s'.
Proof.
  revert s. induction e as [|a e IH]; intros s; simpl.
  - now intros [= ->].
  - destruct s as [|b s]; [discriminate|].
    destruct (Ascii.eqb a b) eqn:E; [|discriminate].
    apply Ascii.eqb_eq in E as ->. intros Hs. now rewrite (IH _ Hs).
Qed.

Lemma fold_orbit_distinct (ch : ascii) : distinct_heads (fold_orbit ch) = true.
Proof. destruct ch as [[] [] [] [] [] [] [] []]; reflexivity. Qed.

Lemma alts_fwd (es : list bytes) (e s' : bytes) (i : nat) (c : caps) (k : cont)
    (r : caps) :
  distinct_heads es = true -> In e es ->
  k (i + length e)%nat s' c = Some r ->
  alts es i (e ++ s') c k = Some r.
Proof.
  intros Hd Hin Hk. induction es as [|e0 es IH]; [destruct Hin|].
  cbn [alts]. destruct Hin as [->|Hin].
  - now rewrite strip_prefix_app, Hk.
  - destruct e0 as [|a e0]; [discriminate|]. cbn [distinct_heads] in Hd.
    apply andb_true_iff in Hd as [Hall Hd].
    rewrite forallb_forall in Hall. specialize (Hall e Hin).
    destruct e as [|b e]; [discriminate|]. simpl.
    destruct (Ascii.eqb a b); [discriminate|]. now apply IH.
Qed.

Lemma alts_inv (es : list bytes) (s : bytes) (i : nat) (c : caps) (k : cont)
    (r : caps) :
  alts es i s c k = Some r ->
  exists e s', In e es /\ s = e ++ s' /\ k (i + length e)%nat s' c = Some r.
Proof.
  induction es as [|e0 es IH]; cbn [alts]; [discriminate|].
  destruct (strip_prefix e0 s) as [s'|] eqn:Es.
  - destruct (k (i + length e0)%nat s' c) as [r'|] eqn:Ek.
    + intros [= <-]. exists e0, s'. split; [now left|].
      split; [now apply strip_prefix_inv|assumption].
    + intros Ha. destruct (IH Ha) as (e & s'' & Hin & -> & Hk).
      exists e, s''. split; [now right|]. now split.
  - intros Ha. destruct (IH Ha) as (e & s'' & Hin & -> & Hk).
    exists e, s''. split; [now right|]. now split.
Qed.

(** Greedy repetition takes the whole run when the rest of the match
    succeeds after it. *)
Lemma star_fwd (p : ascii -> bool) (run rest : bytes) (i : nat) (c : caps)
    (k : cont) (r : caps) :
  forallb p run = true ->
  k (i + length run)%nat rest c = Some r ->
  match rest with a :: _ => p a = false | [] => True end ->
  star p i (run ++ rest) c k = Some r.
Proof.
  revert i. induction run as [|a run IH]; intros i Hall Hk Hrest.
  - simpl in *. rewrite Nat.add_0_r in Hk.
    destruct rest as [|a rest]; simpl; [assumption|]. now rewrite Hrest.
  - simpl in Hall. apply andb_true_iff in Hall as [Ha Hall].
    cbn [app star]. rewrite Ha.
    rewrite (IH (S i)); [reflexivity|assumption| |assumption].
    simpl in Hk. now rewrite Nat.add_succ_r in Hk.
Qed.

Lemma star_inv (p : ascii -> bool) (s : bytes) (i : nat) (c : caps) (k : cont)
    (r : caps) :
  star p i s c k = Some r ->
  exists run rest,
    s = run ++ rest /\ forallb p run = true
    /\ k (i + length run)%nat rest c = Some r.
Proof.
  revert i. induction s as [|a s IH]; intros i; cbn [star].
  - intros Hk. exists [], []. simpl. now rewrite Nat.add_0_r.
  - assert (Hstop : k i (a :: s) c = Some r ->
      exists run rest, a :: s = run ++ rest /\ forallb p run = true
        /\ k (i + length run)%nat rest c = Some r).
    { intros Hk. exists [], (a :: s). simpl. now rewrite Nat.add_0_r. }
    destruct (p a) eqn:Ea; [|exact Hstop].
    destruct (star p (S i) s c k) as [r'|] eqn:Es; [|exact Hstop].
    intros [= <-]. destruct (IH _ Es) as (run & rest & -> & Hall & Hk).
    exists (a :: run), rest. simpl. rewrite Ea, Hall.
    rewrite Nat.add_succ_r. now repeat split.
Qed.

Lemma rx_match_cats_cons (r0 : regex) (rs : list regex) (i : nat) (s : bytes)
    (c : caps) (k : cont) :
  rx_match (cats (r0 :: rs)) i s c k
  = rx_match r0 i s c (fun i' s' c' => rx_match (cats rs) i' s' c' k).
Proof. destruct rs; reflexivity. Qed.

Lemma rx_match_cats_nil (i : nat) (s : bytes) (c : caps) (k : cont) :
  rx_match (cats []) i s c k = k i s c.
Proof. reflexivity. Qed.

Lemma rx_match_BeginText (s : bytes) (c : caps) (k : cont) :
  rx_match BeginText 0 s c k = k O s c.
Proof. reflexivity. Qed.

Lemma rx_match_Group (n : nat) (r : regex) (i : nat) (s : bytes) (c : caps)
    (k : cont) :
  rx_match (Group n r) i s c k
  = rx_match r i s c (fun i' s' c' => k i' s' ((n, (i, i')) :: c')).
Proof. reflexivity. Qed.

Lemma rx_match_Class (p : ascii -> bool) (a : ascii) (i : nat) (s : bytes)
    (c : caps) (k : cont) :
  p a = true -> rx_match (Class p) i (a :: s) c k = k (S i) s c.
Proof. intros Hp. cbn [rx_match]. now rewrite Hp. Qed.

Lemma rx_match_Star (p : ascii -> bool) (i : nat) (s : bytes) (c : caps)
    (k : cont) :
  rx_match (Star p) i s c k = star p i s c k.
Proof. reflexivity. Qed.

Lemma fold_eqb_cons (ch : ascii) (w t : bytes) :
  fold_eqb (ch :: w) t = true <->
  exists e t', In e (fold_orbit ch) /\ t = e ++ t' /\ fold_eqb w t' = true.
Proof.
  cbn [fold_eqb]. rewrite existsb_exists. split.
  - intros (e & Hin & He). destruct (strip_prefix e t) as [t'|] eqn:Es;
      [|discriminate].
    exists e, t'. split; [assumption|]. split; [now apply strip_prefix_inv|assumption].
  - intros (e & t' & Hin & -> & Hw). exists e. split; [assumption|].
    now rewrite strip_prefix_app.
Qed.

Lemma fold_word_fwd (w t s' : bytes) (i : nat) (c : caps) (k : cont) (r : caps) :
  fold_eqb w t = true ->
  k (i + length t)%nat s' c = Some r ->
  rx_match (fold_word w) i (t ++ s') c k = Some r.
Proof.
  unfold fold_word. revert t i. induction w as [|ch w IH]; intros t i Hw Hk.
  - destruct t; [|discriminate]. simpl in *. now rewrite Nat.add_0_r in Hk.
  - apply fold_eqb_cons in Hw as (e & t' & Hin & -> & Hw).
    cbn [map]. rewrite rx_match_cats_cons. cbn [rx_match].
    rewrite <- app_assoc. apply alts_fwd; [apply fold_orbit_distinct|assumption|].
    apply IH; [assumption|]. rewrite length_app in Hk.
    now rewrite Nat.add_assoc in Hk.
Qed.

Lemma fold_word_inv (w s : bytes) (i : nat) (c : caps) (k : cont) (r : caps) :
  rx_match (fold_word w) i s c k = Some r ->
  exists t s', s = t ++ s' /\ fold_eqb w t = true
    /\ k (i + length t)%nat s' c = Some r.
Proof.
  unfold fold_word. revert s i. induction w as [|ch w IH]; intros s i.
  - simpl. intros Hk. exists [], s. simpl. now rewrite Nat.add_0_r.
  - cbn [map]. rewrite rx_match_cats_cons. cbn [rx_match]. intros Ha.
    apply alts_inv in Ha as (e & s1 & Hin & -> & Hk).
    apply IH in Hk as (t & s' & -> & Hw & Hk).
    exists (e ++ t), s'. rewrite <- app_assoc. split; [reflexivity|].
    split.
    + apply fold_eqb_cons. now exists e, t.
    + now rewrite length_app, Nat.add_assoc.
Qed.

Lemma plus_fwd (p : ascii -> bool) (run rest : bytes) (i : nat) (c : caps)
    (k : cont) (r : caps) :
  run_of p run = true ->
  k (i + length run)%nat rest c = Some r ->
  match rest with a :: _ => p a = false | [] => True end ->
  rx_match (Plus p) i (run ++ rest) c k = Some r.
Proof.
  unfold run_of. intros Hrun Hk Hrest.
  destruct run as [|a run]; [discriminate|]. simpl in Hrun.
  apply andb_true_iff in Hrun as [Ha Hall].
  cbn [rx_match app]. rewrite Ha. apply star_fwd; [assumption| |assumption].
  simpl in Hk. now rewrite Nat.add_succ_r in Hk.
Qed.

Lemma plus_inv (p : ascii -> bool) (s : bytes) (i : nat) (c : caps) (k : cont)
    (r : caps) :
  rx_match (Plus p) i s c k = Some r ->
  exists run rest,
    s = run ++ rest /\ run_of p run = true
    /\ k (i + length run)%nat rest c = Some r.
Proof.
  cbn [rx_match]. destruct s as [|a s]; [discriminate|].
  destruct (p a) eqn:Ea; [|discriminate]. intros Hs.
  apply star_inv in Hs as (run & rest & -> & Hall & Hk).
  exists (a :: run), rest. unfold run_of. simpl. rewrite Ea, Hall.
  rewrite Nat.add_succ_r. now repeat split.
Qed.

Lemma ident_not_space (a : ascii) : is_ident a = true -> is_space a = false.
Proof. destruct a as [[] [] [] [] [] [] [] []]; vm_compute; congruence. Qed.

Lemma run_of_head (p : ascii -> bool) (l : bytes) :
  run_of p l = true -> exists a l', l = a :: l' /\ p a = true.
Proof.
  unfold run_of. destruct l as [|a l]; [discriminate|]. simpl.
  intros Hl. apply andb_true_iff in Hl as [Ha _]. now exists a, l.
Qed.

(** A text that is INTO up to case starts with a byte that is no white
    space. *)
Lemma fold_INTO_head (k2 : bytes) :
  fold_eqb (B "INTO") k2 = true ->
  exists a k2', k2 = a :: k2' /\ is_space a = false.
Proof.
  intros Hw. apply fold_eqb_cons in Hw as (e & t' & Hin & -> & _).
  vm_compute in Hin. destruct Hin as [<-|[<-|[]]]; eauto.
Qed.

Lemma first_line_split (b : bytes) : first_line b ++ after_line b = b.
Proof.
  induction b as [|a b IH]; [reflexivity|]. simpl.
  destruct (not_newline a); simpl; [now rewrite IH|reflexivity].
Qed.

Lemma first_line_all (b : bytes) : forallb not_newline (first_line b) = true.
Proof.
  induction b as [|a b IH]; [reflexivity|]. simpl.
  destruct (not_newline a) eqn:E; simpl; [now rewrite E|reflexivity].
Qed.

Lemma after_line_head (b : bytes) :
  match after_line b with a :: _ => not_newline a = false | [] => True end.
Proof.
  induction b as [|a b IH]; [exact I|]. simpl.
  destruct (not_newline a) eqn:E; [exact IH|exact E].
Qed.

Lemma find_from_hit (r : regex) (i : nat) (s : bytes) (c : caps) :
  rx_match r i s [] (fun j _ c' => Some ((O, (i, j)) :: c')) = Some c ->
  find_from r i s = Some c.
Proof. intros Hm. destruct s; simpl; now rewrite Hm. Qed.

(** The match of [rxInsert] on a text of the pattern, with the offsets of
    its groups. *)
Lemma rxInsert_fwd (k1 w1 k2 w2 db rest : bytes) :
  fold_eqb (B "INSERT") k1 = true -> run_of is_space w1 = true ->
  fold_eqb (B "INTO") k2 = true -> run_of is_space w2 = true ->
  run_of is_ident db = true ->
  let n1 := length (k1 ++ w1 ++ k2 ++ w2) in
  let n2 := (n1 + length db)%nat in
  let n4 := (S n2 + length (first_line rest))%nat in
  find_from rxInsert 0 (k1 ++ w1 ++ k2 ++ w2 ++ db ++ B "." ++ rest)
  = Some [(0, (0, n4)); (2, (S n2, n4)); (1, (n1, n2))]%nat.
Proof.
  intros Hk1 Hw1 Hk2 Hw2 Hdb n1 n2 n4.
  destruct (fold_INTO_head _ Hk2) as (a2 & k2' & Ek2 & Ha2).
  destruct (run_of_head _ _ Hdb) as (a3 & db' & Edb & Ha3).
  apply find_from_hit. unfold rxInsert.
  rewrite rx_match_cats_cons, rx_match_BeginText.
  rewrite rx_match_cats_cons, rx_match_cats_cons.
  apply fold_word_fwd; [assumption|]. cbn beta.
  rewrite rx_match_cats_cons.
  apply plus_fwd; [assumption| |rewrite Ek2; exact Ha2]. cbn beta.
  rewrite rx_match_cats_cons.
  apply fold_word_fwd; [assumption|]. cbn beta.
  rewrite rx_match_cats_nil, rx_match_cats_cons.
  apply plus_fwd; [assumption| |rewrite Edb; now apply ident_not_space].
  cbn beta. rewrite rx_match_cats_cons, rx_match_Group.
  apply plus_fwd; [assumption| |reflexivity]. cbn beta.
  rewrite rx_match_cats_cons.
  change (B "." ++ rest) with ("."%char :: rest).
  rewrite rx_match_Class by reflexivity.
  rewrite rx_match_cats_cons, rx_match_Group, rx_match_Star.
  rewrite <- (first_line_split rest) at 1.
  rewrite (star_fwd not_newline (first_line rest) (after_line rest) _ _ _
             [(0, (0, n4)); (2, (S n2, n4)); (1, (n1, n2))]%nat);
    [reflexivity|apply first_line_all| |apply after_line_head].
  rewrite rx_match_cats_nil.
  subst n1 n2 n4. rewrite !length_app.
  replace (0 + length k1 + length w1 + length k2 + length w2)%nat
    with (length k1 + (length w1 + (length k2 + length w2)))%nat by lia.
  reflexivity.
Qed.

Lemma class_inv (p : ascii -> bool) (s : bytes) (i : nat) (c : caps) (k : cont)
    (r : caps) :
  rx_match (Class p) i s c k = Some r ->
  exists a s', s = a :: s' /\ p a = true /\ k (S i) s' c = Some r.
Proof.
  cbn [rx_match]. destruct s as [|a s]; [discriminate|].
  destruct (p a) eqn:Ea; [|discriminate]. intros Hk. now exists a, s.
Qed.

Lemma is_dot_eq (a : ascii) : is_dot a = true -> a = "."%char.
Proof. unfold is_dot. intros Ha. now apply Ascii.eqb_eq in Ha. Qed.

(** [rxInsert] starts with [^]: no match starts after offset 0. *)
Lemma find_from_later (i : nat) (s : bytes) : find_from rxInsert (S i) s = None.
Proof.
  revert i. induction s as [|a s IH]; intros i; cbn [find_from];
    unfold rxInsert; rewrite rx_match_cats_cons; cbn [rx_match Nat.eqb];
    [reflexivity|apply IH].
Qed.

Lemma find_from_start (s : bytes) (c : caps) :
  find_from rxInsert 0 s = Some c ->
  rx_match rxInsert 0 s [] (fun j _ c' => Some ((O, (O, j)) :: c')) = Some c.
Proof.
  destruct s as [|a s]; cbn [find_from];
    destruct (rx_match rxInsert 0 _ [] _) as [c'|]; try congruence.
  now rewrite find_from_later.
Qed.

(** A text that [rxInsert] matches has the shape of the pattern. *)
Lemma rxInsert_inv (q : bytes) (c : caps) :
  find_from rxInsert 0 q = Some c -> exists db rest, insert_pattern q db rest.
Proof.
  intros Hm. apply find_from_start in Hm. unfold rxInsert in Hm.
  rewrite rx_match_cats_cons, rx_match_BeginText in Hm.
  rewrite rx_match_cats_cons, rx_match_cats_cons in Hm.
  apply fold_word_inv in Hm as (k1 & s1 & -> & Hk1 & Hm).
  rewrite rx_match_cats_cons in Hm.
  apply plus_inv in Hm as (w1 & s2 & -> & Hw1 & Hm).
  rewrite rx_match_cats_cons in Hm.
  apply fold_word_inv in Hm as (k2 & s3 & -> & Hk2 & Hm).
  rewrite rx_match_cats_nil, rx_match_cats_cons in Hm.
  apply plus_inv in Hm as (w2 & s4 & -> & Hw2 & Hm).
  rewrite rx_match_cats_cons, rx_match_Group in Hm.
  apply plus_inv in Hm as (db & s5 & -> & Hdb & Hm).
  rewrite rx_match_cats_cons in Hm.
  apply class_inv in Hm as (a & rest & -> & Ha & _).
  apply is_dot_eq in Ha as ->.
  exists db, rest, k1, w1, k2, w2. now repeat split.
Qed.

Lemma substr_mid (pre mid post : bytes) (i j : nat) :
  i = length pre -> j = (i + length mid)%nat ->
  substr (pre ++ mid ++ post) (i, j) = mid.
Proof.
  intros -> ->. unfold substr. cbn [fst snd].
  rewrite drop_app_length.
  replace (length pre + length mid - length pre)%nat with (length mid) by lia.
  apply take_app_length.
Qed.

Lemma FindStringSubmatch_insert (q db rest : bytes) :
  insert_pattern q db rest ->
  exists whole,
    FindStringSubmatch rxInsert 2 q = [whole; db; first_line rest].
Proof.
  intros (k1 & w1 & k2 & w2 & -> & Hk1 & Hw1 & Hk2 & Hw2 & Hdb).
  unfold FindStringSubmatch.
  rewrite (rxInsert_fwd k1 w1 k2 w2 db rest) by assumption.
  cbn [seq map cap_lookup Nat.eqb].
  eexists. f_equal. f_equal; [|f_equal].
  - rewrite (app_assoc k1), (app_assoc (k1 ++ w1)), (app_assoc ((k1 ++ w1) ++ k2)).
    apply substr_mid; [|reflexivity]. now rewrite <- !app_assoc.
  - rewrite <- (first_line_split rest) at 1.
    replace (k1 ++ w1 ++ k2 ++ w2 ++ db ++ B "." ++ first_line rest ++ after_line rest)
      with ((k1 ++ w1 ++ k2 ++ w2 ++ db ++ B ".") ++ first_line rest ++ after_line rest)
      by (now rewrite <- !app_assoc).
    apply substr_mid; [|reflexivity].
    rewrite !length_app. simpl. lia.
Qed.

Lemma newStmt_insert (c : loc) (q db rest : bytes) :
  insert_pattern q db rest ->
  newStmt c q = (InsertStmt (mk_insertStmt c db (first_line rest)), None).
Proof.
  intros Hp. unfold newStmt.
  destruct (FindStringSubmatch_insert q db rest Hp) as (whole & ->).
  reflexivity.
Qed.

Lemma newStmt_generic (c : loc) (q : bytes) :
  (forall db rest, ~ insert_pattern q db rest) ->
  newStmt c q = (GenericStmt (mk_stmt c q), None).
Proof.
  intros Hn. unfold newStmt, FindStringSubmatch.
  destruct (find_from rxInsert 0 q) as [cs|] eqn:Ef; [|reflexivity].
  destruct (rxInsert_inv q cs Ef) as (db & rest & Hp). now destruct (Hn db rest).
Qed.

End RegexpFacts.

(* ------------------------------------------------------------------ *)
(** ** The transaction shim and the statements *)

Ltac run :=
  cbv [tx_Commit tx_Rollback tx_AddPoints conn_Begin newTx insertStmt_Exec
       stmt_Exec conn_client_Write conn_client_Query set_conn_tx
       load_conn load_tx load_batch store_conn store_tx store_batch
       new_batch new_tx new_conn
       mbind mret M_bind M_ret bind ret conns txs batches].

Ltac red_match := cbv beta iota.

Ltac steps :=
  repeat first
    [ progress red_match
    | match goal with Hl : _ !! _ = Some _ |- _ => rewrite Hl end
    | rewrite lookup_insert_eq ].

Section DriverFacts.
Context {C Point : Type} `{Client C} `{Models Point}.
Implicit Types (s : store C Point) (cn : conn C) (T : tx) (bp : BatchPoints Point).

Lemma Bytes_fold (ps : list Point) (precision acc : bytes) :
  fold_left (fun b p => b ++ PrecisionString p precision ++ [newline]) ps acc
  = acc ++ concat (map (fun p => PrecisionString p precision ++ [newline]) ps).
Proof.
  revert acc. induction ps as [|p ps IH]; intros acc; simpl.
  - now rewrite app_nil_r.
  - rewrite IH. now rewrite <- !app_assoc.
Qed.

(** The payload of a batch is the text of each of its points, each followed
    by a newline, in order. *)
Lemma Bytes_concat bp (precision : bytes) :
  Bytes bp precision
  = concat (map (fun p => PrecisionString p precision ++ [newline]) (points bp)).
Proof. unfold Bytes, Points. now rewrite Bytes_fold. Qed.

Lemma conn_Begin_open s (c : loc) cn (t0 : loc) :
  conns s !! c = Some cn -> conn_tx cn = Some t0 ->
  conn_Begin c s = Ret ((None, Some (errors_New "a Tx already begins")), s).
Proof.
  intros Hc Ht. run. destruct s as [cs ts bs]. simpl in Hc.
  rewrite Hc. cbv [conn_tx] in *. destruct cn as [cl db pr otx]. now subst.
Qed.

Lemma conn_Begin_fresh s (c : loc) cn :
  conns s !! c = Some cn -> conn_tx cn = None ->
  let t := fresh (dom (txs s)) in
  let b := fresh (dom (batches s)) in
  conn_Begin c s
  = Ret ((Some t, None),
         mk_store
           (<[c := mk_conn (conn_c cn) (conn_database cn) (conn_precision cn)
                     (Some t)]> (conns s))
           (<[t := mk_tx c b]> (txs s))
           (<[b := mkBatchPoints []]> (batches s))).
Proof.
  intros Hc Ht. run. destruct s as [cs ts bs]. simpl in Hc.
  rewrite Hc. destruct cn as [cl db pr otx]. simpl in Ht. subst otx.
  cbv [conn_tx]. rewrite Hc. reflexivity.
Qed.

Lemma fresh_tx_unused s : txs s !! fresh (dom (txs s)) = None.
Proof. apply not_elem_of_dom, is_fresh. Qed.

Lemma fresh_batch_unused s : batches s !! fresh (dom (batches s)) = None.
Proof. apply not_elem_of_dom, is_fresh. Qed.

Lemma tx_Commit_run s (t : loc) T cn bp :
  txs s !! t = Some T -> conns s !! tx_conn T = Some cn ->
  batches s !! tx_bp T = Some bp ->
  tx_Commit t s
  = let '(c', err) := Client_Write (conn_c cn) (Bytes bp (B "ns"))
                        (WriteConfig_for (conn_database cn)) in
    Ret (err,
         mk_store
           (<[tx_conn T := mk_conn c' (conn_database cn) (conn_precision cn) None]>
              (conns s))
           (txs s) (batches s)).
Proof.
  intros Ht Hc Hb. run. destruct s as [cs ts bs]. simpl in *.
  steps. destruct (Client_Write _ _ _) as [c' err]. steps.
  cbv [conn_c conn_database conn_precision conn_tx].
  now rewrite insert_insert_eq.
Qed.

Lemma tx_Rollback_run s (t : loc) T cn :
  txs s !! t = Some T -> conns s !! tx_conn T = Some cn ->
  let b := fresh (dom (batches s)) in
  tx_Rollback t s
  = Ret (None,
         mk_store
           (<[tx_conn T := mk_conn (conn_c cn) (conn_database cn)
                             (conn_precision cn) None]> (conns s))
           (<[t := mk_tx (tx_conn T) b]> (txs s))
           (<[b := mkBatchPoints []]> (batches s))).
Proof.
  intros Ht Hc. run. destruct s as [cs ts bs]. simpl in *.
  now steps.
Qed.

Lemma tx_AddPoints_run s (t : loc) T bp (ps : list Point) :
  txs s !! t = Some T -> batches s !! tx_bp T = Some bp ->
  tx_AddPoints t ps s
  = Ret (tt, mk_store (conns s) (txs s)
               (<[tx_bp T := AddPoints bp ps]> (batches s))).
Proof.
  intros Ht Hb. run. destruct s as [cs ts bs]. simpl in *.
  now steps.
Qed.

Lemma insertStmt_Exec_run s (st : insertStmt) cn :
  conns s !! ins_conn st = Some cn ->
  insertStmt_Exec st s
  = let '(c', err) := Client_Write (conn_c cn) (ins_query st)
                        (WriteConfig_for (ins_db st)) in
    Ret ((Some (mk_result 0 0), err),
         mk_store
           (<[ins_conn st := mk_conn c' (conn_database cn) (conn_precision cn)
                               (conn_tx cn)]> (conns s))
           (txs s) (batches s)).
Proof.
  intros Hc. run. destruct s as [cs ts bs]. simpl in *.
  steps. now destruct (Client_Write _ _ _) as [c' err].
Qed.

Lemma stmt_Exec_run s (st : stmt) cn :
  conns s !! stmt_conn st = Some cn ->
  stmt_Exec st s
  = let '(c', (resp, err)) :=
      Client_Query (conn_c cn)
        (NewQuery (stmt_query st) (conn_database cn) (conn_precision cn)) in
    let s' := mk_store
                (<[stmt_conn st := mk_conn c' (conn_database cn)
                                     (conn_precision cn) (conn_tx cn)]> (conns s))
                (txs s) (batches s) in
    match err, resp with
    | Some e, _ => Ret ((None, Some e), s')
    | None, None => Panic nil_deref
    | None, Some r =>
        match Response_Error r with
        | Some e => Ret ((None, Some e), s')
        | None => Ret ((Some (mk_result 0 (len_results r)), None), s')
        end
    end.
Proof.
  intros Hc. run. destruct s as [cs ts bs]. simpl in *.
  steps. destruct (Client_Query _ _) as [c' [resp err]]. steps.
  destruct err as [e|]; [reflexivity|].
  destruct resp as [r|]; [|reflexivity].
  now destruct (Response_Error r).
Qed.

End DriverFacts.


(* ------------------------------------------------------------------ *)
(** ** The claims on the UDP chunker *)

Section UDPClaims.
Import UDP.

Lemma udpWrite_loop_fuel (fuel fuel' : nat) (c : Conn) (data tail : bytes)
    (size : Z) :
  (length tail < fuel)%nat -> (length tail < fuel')%nat ->
  udpWrite_loop fuel c data tail size = udpWrite_loop fuel' c data tail size.
Proof.
  revert fuel' c tail. induction fuel as [|fuel IH]; intros fuel' c tail Hf Hf';
    [lia|].
  destruct fuel' as [|fuel']; [lia|]. cbn [udpWrite_loop].
  pose proof (udpPayload_head_nil tail size) as Hn.
  destruct (udpPayload tail size) as [head tail'] eqn:E. cbn [fst] in Hn.
  destruct (len head =? 0) eqn:Eh; [reflexivity|].
  apply Z.eqb_neq in Eh.
  assert (Hd : tail <> []) by (intros Hd; apply Eh, Hn, Hd).
  pose proof (udpPayload_progress tail size Hd) as Hp. rewrite E in Hp.
  cbn [snd] in Hp.
  destruct (conn_Write c data) as [c' [err|]]; [reflexivity|].
  apply IH; lia.
Qed.

Lemma udpWrite_fuel_enough (fuel : nat) (c : Conn) (data : bytes) (size : Z) :
  (length data < fuel)%nat ->
  udpWrite_fuel fuel c data size = Some (udpWrite c data size).
Proof.
  intros Hf. unfold udpWrite, udpWrite_fuel.
  rewrite (udpWrite_loop_fuel fuel (S (S (length data)))) by lia.
  destruct (udpWrite_loop_enough (S (S (length data))) c data data size)
    as (r & ->); [lia|reflexivity].
Qed.

Lemma chunks_fuel_any (fuel fuel' : nat) (tail : bytes) (size : Z) :
  (length tail < fuel)%nat -> (length tail < fuel')%nat ->
  chunks_fuel fuel tail size = chunks_fuel fuel' tail size.
Proof.
  revert fuel' tail. induction fuel as [|fuel IH]; intros fuel' tail Hf Hf';
    [lia|].
  destruct fuel' as [|fuel']; [lia|]. cbn [chunks_fuel].
  pose proof (udpPayload_head_nil tail size) as Hn.
  destruct (udpPayload tail size) as [head tail'] eqn:E. cbn [fst] in Hn.
  destruct (len head =? 0) eqn:Eh; [reflexivity|].
  apply Z.eqb_neq in Eh.
  assert (Hd : tail <> []) by (intros Hd; apply Eh, Hn, Hd).
  pose proof (udpPayload_progress tail size Hd) as Hp. rewrite E in Hp.
  cbn [snd] in Hp. f_equal. apply IH; lia.
Qed.

(** The chunks without the loop: none for the empty payload, the bytes
    before the first newline and all the rest when the size is positive and
    that newline is not the first byte, and the whole payload otherwise. *)
Lemma chunks_closed (data : bytes) (size : Z) :
  chunks data size
  = match data with
    | [] => []
    | _ :: _ =>
        let pos := IndexByte data newline in
        if (0 <? size) && (0 <? pos)
        then [slice_to data pos; slice_from data pos]
        else [data]
    end.
Proof.
  assert (He : udpPayload [] size = ([], [])).
  { rewrite udpPayload_eq. unfold udpPayload_closed. simpl.
    now rewrite andb_false_r. }
  unfold chunks. destruct data as [|a data].
  { cbn [length chunks_fuel]. now rewrite He. }
  rewrite (chunks_fuel_any _ (3 + length (a :: data))) by lia.
  set (d := a :: data). cbn [Nat.add chunks_fuel].
  pose proof (udpPayload_head_nil d size) as Hn.
  pose proof (udpPayload_tail_whole d size) as Hw.
  pose proof (udpPayload_progress d size ltac:(discriminate)) as Hp.
  rewrite (udpPayload_eq d) in *. unfold udpPayload_closed in *.
  destruct ((0 <? size) && (0 <? IndexByte d newline)) eqn:E;
    cbn [fst snd] in *.
  - destruct (len (slice_to d (IndexByte d newline)) =? 0) eqn:Eh.
    { apply Z.eqb_eq in Eh. apply Hn in Eh. discriminate. }
    rewrite Hw.
    destruct (len (slice_from d (IndexByte d newline)) =? 0) eqn:Et.
    { apply andb_true_iff in E as [_ Ep]. apply Z.ltb_lt in Ep.
      pose proof (IndexByte_range d newline) as [Hr|Hr]; [lia|].
      apply Z.eqb_eq in Et. unfold len, slice_from in Et.
      rewrite length_drop in Et. unfold len in Hr. lia. }
    now rewrite He.
  - destruct (len d =? 0) eqn:Eh; [discriminate|]. now rewrite He.
Qed.

(** While no write fails, the write loop makes one write per chunk, and
    what it writes each time is the whole payload [data]. *)
Lemma udpWrite_loop_chunks (fuel : nat) (c : Conn) (data tail : bytes)
    (size : Z) (cs : list bytes) :
  (forall h b, write_err c h b = None) ->
  chunks_fuel fuel tail size = Some cs ->
  udpWrite_loop fuel c data tail size
  = Some (mkConn (sent c ++ repeat data (length cs)) (write_err c) (close_err c),
          None).
Proof.
  intros Hok. revert c Hok tail cs.
  induction fuel as [|fuel IH]; intros c Hok tail cs; [discriminate|].
  cbn [chunks_fuel udpWrite_loop].
  destruct (udpPayload tail size) as [head tail'].
  destruct (len head =? 0).
  - intros [= <-]. destruct c. simpl. now rewrite app_nil_r.
  - destruct (chunks_fuel fuel tail' size) as [cs'|] eqn:Ec; [|discriminate].
    intros [= <-]. unfold conn_Write. rewrite Hok.
    rewrite (IH (mkConn (sent c ++ [data]) (write_err c) (close_err c))
               Hok tail' cs' Ec). cbn [sent write_err close_err length repeat].
    now rewrite <- app_assoc.
Qed.

(** C10. The write loop terminates on every payload and every size: with
    more fuel than the payload has bytes it returns, and its result is that
    of [udpWrite]; so does the loop inside [udpPayload] from two turns on.
    The part not yet split off is empty after two turns, and every turn on a
    payload that is not empty leaves strictly less of it. *)
Theorem udpWrite_terminates (c : Conn) (data : bytes) (size : Z) :
  (forall fuel, (length data < fuel)%nat ->
     udpWrite_fuel fuel c data size = Some (udpWrite c data size))
  /\ (forall fuel, (2 <= fuel)%nat ->
        udpPayload_fuel fuel data size = Some (udpPayload data size))
  /\ remainder 2 data size = []
  /\ (data <> [] ->
        (length (snd (udpPayload data size)) < length data)%nat).
Proof.
  split; [intros fuel Hf; now apply udpWrite_fuel_enough|].
  split; [intros fuel Hf; rewrite udpPayload_eq; now apply udpPayload_fuel_enough|].
  split; [apply remainder_two|apply udpPayload_progress].
Qed.

(** C8. The chunks of a payload, concatenated in order, are the payload,
    for every payload and every size. *)
Theorem chunks_concat (data : bytes) (size : Z) :
  concat (chunks data size) = data.
Proof.
  unfold chunks.
  destruct (chunks_fuel_enough (S (length data)) data size) as (cs & -> & Hc);
    [lia|exact Hc].
Qed.

(** C1 (the code departs from it). Every line of [three_lines] is shorter
    than 4, yet at size 4 the chunker cuts before the first newline: the
    first chunk is the line a without its newline, and the second chunk
    starts with that newline, holds the two lines b and c, and has 5
    bytes. *)
Theorem chunks_cut_before_newline :
  forallb (fun l => len l <? 4) (lines three_lines) = true
  /\ chunks three_lines 4
     = [B "a"; [newline] ++ B "b" ++ [newline] ++ B "c" ++ [newline]]
  /\ forallb (fun ch => len ch <=? 4) (chunks three_lines 4) = false.
Proof. repeat split. Qed.

End UDPClaims.

(* ------------------------------------------------------------------ *)
(** ** The claims on the transaction shim *)

Section DriverClaims.
Context {C Point : Type} `{Client C} `{Models Point}.
Implicit Types (s : store C Point) (cn : conn C) (T : tx) (bp : BatchPoints Point).

(** C4. Commit of an open transaction hands the client one write, of the
    batch serialized at precision ns, with write options whose database is
    that of the connection and whose other fields are empty; whatever that
    write returns, the error is returned to the caller and the transaction
    slot of the connection is nil afterwards. Nothing else in the store
    changes. *)
Theorem tx_Commit_clears_slot s (t : loc) T cn bp :
  txs s !! t = Some T ->
  conns s !! tx_conn T = Some cn ->
  conn_tx cn = Some t ->
  batches s !! tx_bp T = Some bp ->
  exists c' err s',
    Client_Write (conn_c cn) (payload_ns (points bp))
      (mkWriteConfig [] (conn_database cn) [] []) = (c', err)
    /\ tx_Commit t s = Ret (err, s')
    /\ conns s' !! tx_conn T
       = Some (mk_conn c' (conn_database cn) (conn_precision cn) None)
    /\ (forall l, l <> tx_conn T -> conns s' !! l = conns s !! l)
    /\ txs s' = txs s
    /\ batches s' = batches s.
Proof.
  intros Ht Hc _ Hb.
  rewrite (tx_Commit_run s t T cn bp Ht Hc Hb), Bytes_concat.
  fold (payload_ns (points bp)).
  change (WriteConfig_for (conn_database cn))
    with (mkWriteConfig [] (conn_database cn) [] []).
  destruct (Client_Write _ _ _) as [c' err]. eexists c', err, _.
  split; [reflexivity|]. split; [reflexivity|]. cbn [conns txs batches].
  split; [apply lookup_insert_eq|].
  split; [intros l Hl; now apply lookup_insert_ne|]. now split.
Qed.

(** C5. Begin on a connection whose transaction slot is taken returns the
    error and leaves the store as it was; on a connection with no
    transaction it allocates an empty batch and a transaction on it, both at
    locations that held nothing, and puts the transaction in the slot. *)
Theorem conn_Begin_once s (c : loc) cn :
  conns s !! c = Some cn ->
  (forall t0, conn_tx cn = Some t0 ->
     conn_Begin c s
     = Ret ((None, Some (errors_New "a Tx already begins")), s))
  /\ (conn_tx cn = None ->
      exists t b s',
        conn_Begin c s = Ret ((Some t, None), s')
        /\ txs s !! t = None
        /\ batches s !! b = None
        /\ txs s' = <[t := mk_tx c b]> (txs s)
        /\ batches s' = <[b := mkBatchPoints []]> (batches s)
        /\ conns s'
           = <[c := mk_conn (conn_c cn) (conn_database cn) (conn_precision cn)
                      (Some t)]> (conns s)).
Proof.
  intros Hc. split.
  - intros t0 Ht. now apply (conn_Begin_open s c cn t0).
  - intros Ht. rewrite (conn_Begin_fresh s c cn Hc Ht).
    eexists _, _, _. split; [reflexivity|].
    split; [apply fresh_tx_unused|]. split; [apply fresh_batch_unused|].
    now repeat split.
Qed.

(** C6. Rollback of an open transaction gives it a new empty batch at a
    location that held nothing, leaves the old batch as it was, sets the
    transaction slot of the connection to nil and leaves the client
    untouched. Rollback, begin, adding [ps] and commit then hand the client
    exactly one write, whose payload is that of [ps] alone. *)
Theorem tx_Rollback_discards s (t : loc) T cn bp (ps : list Point) :
  txs s !! t = Some T ->
  conns s !! tx_conn T = Some cn ->
  conn_tx cn = Some t ->
  batches s !! tx_bp T = Some bp ->
  (exists b s1,
     tx_Rollback t s = Ret (None, s1)
     /\ batches s !! b = None
     /\ txs s1 !! t = Some (mk_tx (tx_conn T) b)
     /\ batches s1 !! b = Some (mkBatchPoints [])
     /\ batches s1 !! tx_bp T = Some bp
     /\ conns s1 !! tx_conn T
        = Some (mk_conn (conn_c cn) (conn_database cn) (conn_precision cn) None))
  /\ (exists c' err s2,
        Client_Write (conn_c cn) (payload_ns ps)
          (WriteConfig_for (conn_database cn)) = (c', err)
        /\ rollback_begin_add_commit t (tx_conn T) ps s = Ret (err, s2)
        /\ conns s2 !! tx_conn T
           = Some (mk_conn c' (conn_database cn) (conn_precision cn) None)).
Proof.
  intros Ht Hc _ Hb. split.
  - rewrite (tx_Rollback_run s t T cn Ht Hc). eexists _, _.
    split; [reflexivity|]. cbn [conns txs batches].
    split; [apply fresh_batch_unused|].
    split; [apply lookup_insert_eq|]. split; [apply lookup_insert_eq|].
    split; [|apply lookup_insert_eq].
    rewrite lookup_insert_ne; [exact Hb|].
    intros E. pose proof (fresh_batch_unused s) as Hf. rewrite E in Hf. congruence.
  - unfold rollback_begin_add_commit.
    cbv [mbind mret M_bind M_ret bind ret].
    rewrite (tx_Rollback_run s t T cn Ht Hc). red_match.
    match goal with |- context [conn_Begin _ ?s1] => set (s1' := s1) end.
    assert (Hc1 : conns s1' !! tx_conn T
                  = Some (mk_conn (conn_c cn) (conn_database cn)
                            (conn_precision cn) None))
      by apply lookup_insert_eq.
    rewrite (conn_Begin_fresh s1' (tx_conn T) _ Hc1 eq_refl). red_match.
    match goal with |- context [tx_AddPoints _ _ ?s2] => set (s2' := s2) end.
    set (t' := fresh (dom (txs s1'))) in *.
    set (b' := fresh (dom (batches s1'))) in *.
    assert (Ht2 : txs s2' !! t' = Some (mk_tx (tx_conn T) b'))
      by apply lookup_insert_eq.
    assert (Hb2 : batches s2' !! tx_bp (mk_tx (tx_conn T) b')
                  = Some (mkBatchPoints []))
      by apply lookup_insert_eq.
    rewrite (tx_AddPoints_run s2' t' _ _ ps Ht2 Hb2). red_match.
    match goal with |- context [tx_Commit _ ?s3] => set (s3' := s3) end.
    assert (Ht3 : txs s3' !! t' = Some (mk_tx (tx_conn T) b'))
      by apply lookup_insert_eq.
    assert (Hb3 : batches s3' !! tx_bp (mk_tx (tx_conn T) b')
                  = Some (AddPoints (mkBatchPoints []) ps))
      by apply lookup_insert_eq.
    assert (Hc3 : conns s3' !! tx_conn (mk_tx (tx_conn T) b')
                  = Some (mk_conn (conn_c cn) (conn_database cn)
                            (conn_precision cn) (Some t')))
      by apply lookup_insert_eq.
    rewrite (tx_Commit_run s3' t' _ _ _ Ht3 Hc3 Hb3), Bytes_concat.
    cbn [conn_c conn_database conn_precision AddPoints points app tx_conn].
    fold (payload_ns ps).
    destruct (Client_Write _ _ _) as [c' err]. eexists c', err, _.
    split; [reflexivity|]. split; [reflexivity|]. apply lookup_insert_eq.
Qed.

(** C7. Executing an insert statement on a connection whose transaction is
    open hands its body to the client at once, for the database of the
    statement; the transaction stays in the slot, and no transaction and no
    batch in the store changes. *)
Theorem insertStmt_Exec_writes_through s (st : insertStmt) cn (t : loc) T bp :
  conns s !! ins_conn st = Some cn ->
  conn_tx cn = Some t ->
  txs s !! t = Some T ->
  batches s !! tx_bp T = Some bp ->
  exists c' err s',
    Client_Write (conn_c cn) (ins_query st) (WriteConfig_for (ins_db st))
    = (c', err)
    /\ insertStmt_Exec st s = Ret ((Some (mk_result 0 0), err), s')
    /\ conns s' !! ins_conn st
       = Some (mk_conn c' (conn_database cn) (conn_precision cn) (Some t))
    /\ txs s' = txs s
    /\ batches s' = batches s
    /\ batches s' !! tx_bp T = Some bp.
Proof.
  intros Hc Hopen Ht Hb. rewrite (insertStmt_Exec_run s st cn Hc).
  destruct (Client_Write _ _ _) as [c' err]. eexists c', err, _.
  split; [reflexivity|]. split; [reflexivity|]. cbn [conns txs batches].
  rewrite <- Hopen. split; [apply lookup_insert_eq|]. now repeat split.
Qed.

End DriverClaims.

Section DriverWitnesses.
Import Sample.

Lemma tx_Commit_clears_slot_witness :
  exists c' err s',
    Client_Write (conn_c (conn1 true (Some 1%positive)))
      (payload_ns (points batch1)) (mkWriteConfig [] (B "mydb") [] [])
    = (c', err)
    /\ tx_Commit 1%positive (open_store true) = Ret (err, s')
    /\ conns s' !! 1%positive = Some (mk_conn c' (B "mydb") (B "ns") None)
    /\ (forall l, l <> 1%positive -> conns s' !! l = conns (open_store true) !! l)
    /\ txs s' = txs (open_store true)
    /\ batches s' = batches (open_store true).
Proof.
  apply (tx_Commit_clears_slot (open_store true) 1%positive tx1
           (conn1 true (Some 1%positive)) batch1); reflexivity.
Defined.

Lemma conn_Begin_once_witness :
  conn_Begin 1%positive (open_store false)
  = Ret ((None, Some (errors_New "a Tx already begins")), open_store false)
  /\ exists t b s',
       conn_Begin 1%positive idle_store = Ret ((Some t, None), s')
       /\ txs idle_store !! t = None
       /\ batches idle_store !! b = None
       /\ txs s' = <[t := mk_tx 1%positive b]> (txs idle_store)
       /\ batches s' = <[b := mkBatchPoints []]> (batches idle_store)
       /\ conns s'
          = <[1%positive := mk_conn (mk_recorder [] false) (B "mydb") (B "ns")
                              (Some t)]> (conns idle_store).
Proof.
  split.
  - apply (proj1 (conn_Begin_once (open_store false) 1%positive
                    (conn1 false (Some 1%positive)) eq_refl) 1%positive).
    reflexivity.
  - apply (proj2 (conn_Begin_once idle_store 1%positive (conn1 false None)
                    eq_refl)).
    reflexivity.
Defined.

Lemma tx_Rollback_discards_witness :
  exists c' err s2,
    Client_Write (mk_recorder [] false) (payload_ns [B "mem value=3 3"])
      (WriteConfig_for (B "mydb")) = (c', err)
    /\ rollback_begin_add_commit 1%positive 1%positive [B "mem value=3 3"]
         (open_store false) = Ret (err, s2)
    /\ conns s2 !! 1%positive = Some (mk_conn c' (B "mydb") (B "ns") None).
Proof.
  apply (tx_Rollback_discards (open_store false) 1%positive tx1
           (conn1 false (Some 1%positive)) batch1 [B "mem value=3 3"]);
    reflexivity.
Defined.

Lemma insertStmt_Exec_writes_through_witness :
  exists c' err s',
    Client_Write (mk_recorder [] false) (B "cpu,host=a value=1 100")
      (WriteConfig_for (B "other")) = (c', err)
    /\ insertStmt_Exec
         (mk_insertStmt 1%positive (B "other") (B "cpu,host=a value=1 100"))
         (open_store false)
       = Ret ((Some (mk_result 0 0), err), s')
    /\ conns s' !! 1%positive
       = Some (mk_conn c' (B "mydb") (B "ns") (Some 1%positive))
    /\ txs s' = txs (open_store false)
    /\ batches s' = batches (open_store false)
    /\ batches s' !! 1%positive = Some batch1.
Proof.
  apply (insertStmt_Exec_writes_through (open_store false)
           (mk_insertStmt 1%positive (B "other") (B "cpu,host=a value=1 100"))
           (conn1 false (Some 1%positive)) 1%positive tx1 batch1);
    reflexivity.
Defined.

End DriverWitnesses.

(* ------------------------------------------------------------------ *)
(** ** The claim on the statement router *)

Lemma first_line_id (b : bytes) :
  forallb Regexp.not_newline b = true -> first_line b = b.
Proof.
  induction b as [|a b IH]; [reflexivity|]. simpl.
  intros Hb. apply andb_true_iff in Hb as [Ha Hb]. rewrite Ha. now rewrite IH.
Qed.

Section RouterClaims.
Context {C Point : Type} `{Client C} `{Models Point}.
Implicit Types (s : store C Point) (cn : conn C).

(** X28. A text of the pattern whose part after the dot has no newline is
    routed to the write path: the statement holds the identifier as
    database and that part as body, and executing it hands the client that
    body with write options whose database is the identifier and whose
    other fields are empty. A text that is not of the pattern is routed to
    the query path: executing it hands the client the query whose command is
    the whole text and whose database and precision are those of the
    connection. *)
Theorem newStmt_routes s (c : loc) cn (q : bytes) :
  conns s !! c = Some cn ->
  (forall db rest,
     insert_pattern q db rest -> forallb Regexp.not_newline rest = true ->
     newStmt c q = (InsertStmt (mk_insertStmt c db rest), None)
     /\ exists c' err s',
          Client_Write (conn_c cn) rest (mkWriteConfig [] db [] []) = (c', err)
          /\ Stmt_Exec (fst (newStmt c q)) s
             = Ret ((Some (mk_result 0 0), err), s')
          /\ conns s' !! c
             = Some (mk_conn c' (conn_database cn) (conn_precision cn)
                       (conn_tx cn)))
  /\ ((forall db rest, ~ insert_pattern q db rest) ->
      newStmt c q = (GenericStmt (mk_stmt c q), None)
      /\ Stmt_Exec (fst (newStmt c q)) s
         = let '(c', (resp, err)) :=
             Client_Query (conn_c cn)
               (mkQuery q (conn_database cn) (conn_precision cn)) in
           let s' := mk_store
                       (<[c := mk_conn c' (conn_database cn) (conn_precision cn)
                                 (conn_tx cn)]> (conns s))
                       (txs s) (batches s) in
           match err, resp with
           | Some e, _ => Ret ((None, Some e), s')
           | None, None => Panic nil_deref
           | None, Some r =>
               match Response_Error r with
               | Some e => Ret ((None, Some e), s')
               | None =>
                   Ret ((Some (mk_result 0 (Z.of_nat (length (Results r)))),
                         None), s')
               end
           end)
  /\ newStmt c (B "INSERT INTO mydb.cpu,host=a value=1 100")
     = (InsertStmt (mk_insertStmt c (B "mydb") (B "cpu,host=a value=1 100")),
        None)
  /\ newStmt c (B "SELECT * FROM cpu")
     = (GenericStmt (mk_stmt c (B "SELECT * FROM cpu")), None).
Proof.
  intros Hc. split; [|split; [|split; reflexivity]].
  - intros db rest Hp Hnl.
    pose proof (newStmt_insert c q db rest Hp) as Hn.
    rewrite (first_line_id rest Hnl) in Hn. split; [exact Hn|].
    rewrite Hn. cbn [fst Stmt_Exec].
    rewrite (insertStmt_Exec_run s (mk_insertStmt c db rest) cn Hc).
    cbn [ins_conn ins_db ins_query].
    change (WriteConfig_for db) with (mkWriteConfig [] db [] []).
    destruct (Client_Write _ _ _) as [c' err]. eexists c', err, _.
    split; [reflexivity|]. split; [reflexivity|]. apply lookup_insert_eq.
  - intros Hn. rewrite (newStmt_generic c q Hn). split; [reflexivity|].
    cbn [fst Stmt_Exec]. now rewrite (stmt_Exec_run s (mk_stmt c q) cn Hc).
Qed.

End RouterClaims.

Section RouterWitness.
Import Sample.

(** C3 (the code departs from it). [two_line_insert] is of the pattern with
    database mydb and both lines after the dot, yet the statement that
    [newStmt] returns holds only the first line as its body. Executing it
    reports success with one write of that first line: the second line is
    never written. *)
Lemma newStmt_drops_after_newline :
  insert_pattern two_line_insert (B "mydb")
    (B "cpu value=1" ++ [newline] ++ B "cpu value=2")
  /\ newStmt 1%positive two_line_insert
     = (InsertStmt (mk_insertStmt 1%positive (B "mydb") (B "cpu value=1")), None)
  /\ B "cpu value=1" <> B "cpu value=1" ++ [newline] ++ B "cpu value=2"
  /\ Stmt_Exec (fst (newStmt 1%positive two_line_insert)) idle_store
     = Ret ((Some (mk_result 0 0), None),
            mk_store
              {[ 1%positive
                 := mk_conn
                      (mk_recorder
                         [CallWrite (B "cpu value=1")
                            (mkWriteConfig [] (B "mydb") [] [])] false)
                      (B "mydb") (B "ns") None ]} ∅ ∅).
Proof.
  split; [|split; [reflexivity|split; [discriminate|reflexivity]]].
  exists (B "INSERT"), (B " "), (B "INTO"), (B " "). now repeat split.
Qed.

Lemma newStmt_routes_witness :
  (newStmt 1%positive (B "insert  into my-db_1.cpu value=1")
   = (InsertStmt (mk_insertStmt 1%positive (B "my-db_1") (B "cpu value=1")), None)
   /\ exists c' err s',
        Client_Write (Sample.mk_recorder [] false) (B "cpu value=1")
          (mkWriteConfig [] (B "my-db_1") [] []) = (c', err)
        /\ Stmt_Exec (fst (newStmt 1%positive (B "insert  into my-db_1.cpu value=1")))
             Sample.idle_store
           = Ret ((Some (mk_result 0 0), err), s')
        /\ conns s' !! 1%positive = Some (mk_conn c' (B "mydb") (B "ns") None))
  /\ newStmt 1%positive (B "SHOW DATABASES")
     = (GenericStmt (mk_stmt 1%positive (B "SHOW DATABASES")), None).
Proof.
  split.
  - apply (proj1 (newStmt_routes Sample.idle_store 1%positive
                    (Sample.conn1 false None)
                    (B "insert  into my-db_1.cpu value=1") eq_refl)
             (B "my-db_1") (B "cpu value=1")); [|reflexivity].
    exists (B "insert"), (B "  "), (B "into"), (B " "). now repeat split.
  - apply (proj1 (proj2 (newStmt_routes Sample.idle_store 1%positive
                           (Sample.conn1 false None) (B "SHOW DATABASES")
                           eq_refl))).
    intros db rest Hp.
    pose proof (newStmt_insert 1%positive _ db rest Hp) as Hn.
    vm_compute in Hn. discriminate Hn.
Defined.

End RouterWitness.

(* ------------------------------------------------------------------ *)
(** ** The claims on the query path and on Open *)

Lemma eqb_bytes_eq (a b : bytes) : eqb_bytes a b = true <-> a = b.
Proof.
  revert b. induction a as [|x a IH]; intros [|y b]; simpl;
    try (split; congruence).
  rewrite andb_true_iff, Ascii.eqb_eq, IH. split.
  - now intros [-> ->].
  - now intros [= -> ->].
Qed.

Lemma eqb_bytes_neq (a b : bytes) : eqb_bytes a b = false <-> a <> b.
Proof.
  rewrite <- eqb_bytes_eq. destruct (eqb_bytes a b); split; congruence.
Qed.

Section HTTPClaims.
Context `{GoLib}.

Lemma httpClient_Query_decode (c : httpClient) (q : Query) (resp : HTTPResponse) :
  http_NewRequest "POST" (with_Path (url c) (B "query")) = None ->
  http_RoundTrip (requests c) (Query_request c q) = inl resp ->
  snd (httpClient_Query c q) = Query_decode resp.
Proof.
  intros Hn Hr. unfold httpClient_Query, Do. now rewrite Hn, Hr.
Qed.

(** C2 (as amended). When the decoder fails on the answer to a query, the
    decode error is dropped only when its text is EOF and the status is not
    200: the call then returns the response, with the error of the status,
    which carries the status code and no body text, unless the response
    holds an error of its own. Every other decode error, and EOF at status
    200, is returned with the status code and the decoder's text, whatever
    the status. *)
Theorem Query_decode_error_by_text (c : httpClient) (q : Query)
    (resp : HTTPResponse) (response : Response) (msg : bytes) :
  http_NewRequest "POST" (with_Path (url c) (B "query")) = None ->
  http_RoundTrip (requests c) (Query_request c q) = inl resp ->
  json_Decode (resp_Body resp) (resp_BodyErr resp) = (response, Some msg) ->
  (StatusCode resp <> 200 -> msg = B "EOF" ->
     snd (httpClient_Query c q)
     = match Response_Error response with
       | None =>
           (Some response,
            Some (fmt_Errorf "received status code %d from server"
                    [ArgInt (StatusCode resp)]))
       | Some _ => (Some response, None)
       end)
  /\ (msg <> B "EOF" \/ StatusCode resp = 200 ->
      snd (httpClient_Query c q)
      = (None,
         Some (fmt_Errorf
                 "unable to decode json: received status code %d err: %s"
                 [ArgInt (StatusCode resp); ArgStr msg]))).
Proof.
  intros Hn Hr Hd. rewrite (httpClient_Query_decode c q resp Hn Hr).
  unfold Query_decode, StatusOK. rewrite Hd. split.
  - intros Hs -> . apply Z.eqb_neq in Hs. rewrite Hs.
    change (eqb_bytes (B "EOF") (B "EOF")) with true. cbn [negb andb].
    now destruct (Response_Error response).
  - intros [Hm|Hs].
    + apply eqb_bytes_neq in Hm. now rewrite Hm.
    + rewrite Hs. cbn [Z.eqb Pos.eqb negb]. now rewrite andb_false_r.
Qed.

End HTTPClaims.

Section OpenClaims.
Context {Point : Type} `{GoLib}.
Implicit Types (s : store httpClient Point).

(** C9 (as amended). Open returns the parser's error for a name that does
    not parse. For a parsed name it panics when the scheme is udp; with the
    scheme http it returns either the error of creating the client or a new
    connection with no transaction, whose database is the path without its
    leading slash and whose precision defaults to ns; with any other scheme
    it returns the unsupported-scheme error. It panics for the scheme udp
    only, and an error leaves the store as it was. *)
Theorem Open_by_scheme (name : bytes) s :
  (forall err, url_Parse name = inr err ->
     Open name s = Ret ((None, Some err), s))
  /\ (forall uri, url_Parse name = inl uri ->
      (Scheme uri = B "udp" ->
         Open name s = Panic "udp scheme is not supported by the driver")
      /\ (Scheme uri = B "http" ->
          match NewHTTPClient (open_config uri) with
          | inr err => Open name s = Ret ((None, Some err), s)
          | inl c =>
              exists l,
                conns s !! l = None
                /\ Open name s
                   = Ret ((Some l, None),
                          mk_store
                            (<[l := mk_conn c (TrimPrefix (Path uri) (B "/"))
                                      (open_precision uri) None]> (conns s))
                            (txs s) (batches s))
          end)
      /\ (Scheme uri <> B "udp" -> Scheme uri <> B "http" ->
          Open name s
          = Ret ((None,
                  Some (fmt_Errorf "unsupported scheme %s" [ArgStr (Scheme uri)])),
                 s)))
  /\ (forall msg, Open name s = Panic msg ->
      exists uri, url_Parse name = inl uri /\ Scheme uri = B "udp").
Proof.
  unfold Open. split; [|split].
  - now intros err ->.
  - intros uri ->. split; [|split].
    + now intros ->.
    + intros ->. change (eqb_bytes (B "http") (B "udp")) with false.
      change (eqb_bytes (B "http") (B "http")) with true. cbv iota.
      destruct (NewHTTPClient (open_config uri)) as [c|err]; [|reflexivity].
      exists (fresh (dom (conns s))).
      split; [apply not_elem_of_dom, is_fresh|reflexivity].
    + intros Hu Hh. apply eqb_bytes_neq in Hu, Hh. now rewrite Hu, Hh.
  - intros msg. destruct (url_Parse name) as [uri|err]; [|discriminate].
    destruct (eqb_bytes (Scheme uri) (B "udp")) eqn:Eu.
    + intros _. exists uri. split; [reflexivity|now apply eqb_bytes_eq].
    + destruct (eqb_bytes (Scheme uri) (B "http")); [|discriminate].
      destruct (NewHTTPClient (open_config uri)); discriminate.
Qed.

End OpenClaims.

Section EnvironmentWitnesses.
Import Sample.

(** C2 (as stated, refuted). The server answers status 500 with a body that
    is no JSON; the decoder fails, and the query returns the decode error,
    not the error of the status. *)
Lemma Query_returns_decode_error :
  let resp := mkHTTPResponse 500 (B "Internal Server Error") None [] 0 in
  StatusCode resp <> StatusOK
  /\ snd (decode_table (resp_Body resp) (resp_BodyErr resp))
     = Some (B "invalid character 'I' looking for beginning of value")
  /\ snd (@httpClient_Query (lib (inl resp)) client
            (NewQuery (B "SHOW DATABASES") [] []))
     = (None,
        Some (fmt_Errorf
                "unable to decode json: received status code %d err: %s"
                [ArgInt 500;
                 ArgStr (B "invalid character 'I' looking for beginning of value")])).
Proof. split; [discriminate|split; reflexivity]. Qed.

Lemma Query_decode_error_by_text_witness :
  snd (@httpClient_Query (lib (server_error [])) client
         (NewQuery (B "SHOW DATABASES") [] []))
  = (Some (mkResponse [] []),
     Some (fmt_Errorf "received status code %d from server" [ArgInt 500]))
  /\ snd (@httpClient_Query (lib (server_error (B "oops"))) client
            (NewQuery (B "SHOW DATABASES") [] []))
     = (None,
        Some (fmt_Errorf
                "unable to decode json: received status code %d err: %s"
                [ArgInt 500;
                 ArgStr (B "invalid character 'o' looking for beginning of value")]))
  /\ snd (@httpClient_Query (lib (inl (mkHTTPResponse 200 [] None [] 0))) client
            (NewQuery (B "SHOW DATABASES") [] []))
     = (None,
        Some (fmt_Errorf
                "unable to decode json: received status code %d err: %s"
                [ArgInt 200; ArgStr (B "EOF")])).
Proof.
  split; [|split].
  - apply (proj1 (@Query_decode_error_by_text (lib (server_error [])) client
                    (NewQuery (B "SHOW DATABASES") [] [])
                    (mkHTTPResponse 500 [] None [] 0) (mkResponse [] [])
                    (B "EOF") eq_refl eq_refl eq_refl));
      [discriminate|reflexivity].
  - apply (proj2 (@Query_decode_error_by_text
                    (lib (server_error (B "oops"))) client
                    (NewQuery (B "SHOW DATABASES") [] [])
                    (mkHTTPResponse 500 (B "oops") None [] 0) (mkResponse [] [])
                    (B "invalid character 'o' looking for beginning of value")
                    eq_refl eq_refl eq_refl)).
    left. discriminate.
  - apply (proj2 (@Query_decode_error_by_text
                    (lib (inl (mkHTTPResponse 200 [] None [] 0))) client
                    (NewQuery (B "SHOW DATABASES") [] [])
                    (mkHTTPResponse 200 [] None [] 0) (mkResponse [] [])
                    (B "EOF") eq_refl eq_refl eq_refl)).
    right. reflexivity.
Defined.

Lemma Open_by_scheme_witness :
  (exists l,
     conns (@empty_store httpClient bytes) !! l = None
     /\ @Open bytes (lib (server_error []))
          (B "http://localhost:8086/mydb?precision=s") empty_store
        = Ret ((Some l, None),
               mk_store
                 (<[l := mk_conn client (B "mydb") (B "s") None]> ∅) ∅ ∅))
  /\ @Open bytes (lib (server_error [])) (B "https://localhost:8086") empty_store
     = Ret ((None, Some (fmt_Errorf "unsupported scheme %s" [ArgStr (B "https")])),
            empty_store)
  /\ @Open bytes (lib (server_error [])) (B ":") empty_store
     = Ret ((None, Some missing_scheme), empty_store).
Proof.
  split; [|split].
  - apply (proj1 (proj2 (proj1 (proj2
             (@Open_by_scheme bytes (lib (server_error []))
                (B "http://localhost:8086/mydb?precision=s") empty_store))
             _ eq_refl)) eq_refl).
  - apply (proj2 (proj2 (proj1 (proj2
             (@Open_by_scheme bytes (lib (server_error []))
                (B "https://localhost:8086") empty_store))
             _ eq_refl))); discriminate.
  - apply (proj1 (@Open_by_scheme bytes (lib (server_error []))
                    (B ":") empty_store) _ eq_refl).
Defined.

(** C9 (as stated, refuted). Open panics on a name whose scheme is udp. *)
Lemma Open_udp_panics :
  @Open bytes (lib (server_error [])) (B "udp://localhost:8089") empty_store
  = Panic "udp scheme is not supported by the driver".
Proof. reflexivity. Qed.

End EnvironmentWitnesses.

(* ================================================================== *)
(** * Further properties of the code *)

(* ------------------------------------------------------------------ *)
(** ** The UDP writer *)

Section UDPMore.
Import UDP.

Lemma IndexByte_take (b : bytes) (c : ascii) (n : nat) :
  (Z.of_nat n <= IndexByte b c) -> IndexByte (take n b) c = -1.
Proof.
  revert n. induction b as [|x b IH]; intros n Hn; [now destruct n|].
  destruct n as [|n]; [reflexivity|]. simpl in *.
  destruct (Ascii.eqb x c); [lia|].
  destruct (IndexByte b c <? 0) eqn:E; [lia|].
  rewrite IH by lia. reflexivity.
Qed.

Lemma IndexByte_zero (b : bytes) (c : ascii) :
  IndexByte b c = 0 -> exists b', b = c :: b'.
Proof.
  destruct b as [|x b]; simpl; [discriminate|].
  destruct (Ascii.eqb x c) eqn:E.
  - apply Ascii.eqb_eq in E as ->. eauto.
  - pose proof (IndexByte_range b c). destruct (IndexByte b c <? 0) eqn:E'; lia.
Qed.

(** X1. Whatever the size, the chunker cuts a payload at most once: there
    are never more than two chunks and none is empty. When it cuts, the
    first chunk holds no newline and the second starts with one; a payload
    that is not empty is left whole when the size is not positive or no
    newline lies beyond its first byte. *)
Theorem chunks_at_most_two (data : bytes) (size : Z) :
  (length (chunks data size) <= 2)%nat
  /\ Forall (fun ch => ch <> []) (chunks data size)
  /\ (forall ch1 ch2, chunks data size = [ch1; ch2] ->
        IndexByte ch1 newline = -1 /\ exists rest, ch2 = newline :: rest)
  /\ (data <> [] -> (size <= 0 \/ IndexByte data newline <= 0) ->
        chunks data size = [data]).
Proof.
  rewrite chunks_closed. destruct data as [|a data].
  { repeat split; try (simpl; lia); try constructor; try discriminate.
    intros Hd; now destruct Hd. }
  cbv beta iota zeta. remember (a :: data) as d eqn:Hd.
  assert (Hne : d <> []) by (subst d; discriminate).
  destruct ((0 <? size) && (0 <? IndexByte d newline)) eqn:E.
  - apply andb_true_iff in E as [Es Ep].
    apply Z.ltb_lt in Es, Ep.
    destruct (IndexByte_range d newline) as [Hr|Hr]; [lia|].
    split; [simpl; lia|]. split; [|split].
    + repeat constructor.
      * intros Hn. apply (f_equal len) in Hn.
        rewrite slice_to_length in Hn by lia. change (len []) with 0 in Hn. lia.
      * intros Hn. apply (f_equal (@length ascii)) in Hn.
        unfold slice_from in Hn. rewrite length_drop in Hn.
        unfold len in Hr. change (length (@nil ascii)) with O in Hn. lia.
    + intros ch1 ch2 [= <- <-]. split.
      * unfold slice_to. apply IndexByte_take. lia.
      * apply IndexByte_zero. apply IndexByte_drop. lia.
    + intros _ [Hs|Hp]; lia.
  - split; [simpl; lia|]. split; [now repeat constructor|].
    split; [discriminate|reflexivity].
Qed.

(** X2. Chunking a chunk again at the same size gives that chunk back. *)
Theorem chunks_idempotent (data ch : bytes) (size : Z) :
  In ch (chunks data size) -> chunks ch size = [ch].
Proof.
  rewrite chunks_closed. destruct data as [|a data]; [intros []|].
  cbv beta iota zeta. remember (a :: data) as d eqn:Hd.
  destruct ((0 <? size) && (0 <? IndexByte d newline)) eqn:E.
  - apply andb_true_iff in E as [Es Ep]. apply Z.ltb_lt in Ep.
    destruct (IndexByte_range d newline) as [Hr|Hr]; [lia|].
    intros [<-|[<-|[]]]; rewrite chunks_closed.
    + assert (Hl : len (slice_to d (IndexByte d newline)) = IndexByte d newline)
        by (apply slice_to_length; lia).
      assert (Hi : IndexByte (slice_to d (IndexByte d newline)) newline = -1)
        by (unfold slice_to; apply IndexByte_take; lia).
      destruct (slice_to d (IndexByte d newline)) as [|x l].
      { change (len []) with 0 in Hl. lia. }
      cbv zeta. rewrite Hi. now rewrite andb_false_r.
    + destruct (IndexByte_zero _ _ (IndexByte_drop d newline ltac:(lia)))
        as (rest & Hrest).
      rewrite Hrest. simpl. now rewrite andb_false_r.
  - intros [<-|[]]. rewrite chunks_closed. subst d. cbv beta iota zeta.
    now rewrite E.
Qed.

(** X3. While no write on the connection fails, [udpWrite] returns no
    error and hands the connection the whole payload once for every chunk,
    not the chunk: nothing for the empty payload, the payload once when it
    is left whole and twice when it is cut. *)
Theorem udpWrite_resends_payload (c : Conn) (data : bytes) (size : Z) :
  (forall h b, write_err c h b = None) ->
  udpWrite c data size
  = (mkConn (sent c ++ repeat data (length (chunks data size)))
       (write_err c) (close_err c), None).
Proof.
  intros Hok. unfold udpWrite, udpWrite_fuel, chunks.
  destruct (chunks_fuel_enough (S (length data)) data size) as (cs & Hcs & _);
    [lia|].
  rewrite Hcs.
  rewrite (chunks_fuel_any _ (S (S (length data)))) in Hcs by lia.
  now rewrite (udpWrite_loop_chunks _ c data data size cs Hok Hcs).
Qed.

(** X4. When the first write of a payload that is not empty fails,
    [udpWrite] returns that error after this one write. *)
Theorem udpWrite_stops_on_error (c : Conn) (data : bytes) (size : Z) (e : error) :
  data <> [] ->
  write_err c (sent c) data = Some e ->
  udpWrite c data size
  = (mkConn (sent c ++ [data]) (write_err c) (close_err c), Some e).
Proof.
  intros Hd He. unfold udpWrite, udpWrite_fuel. cbn [udpWrite_loop].
  pose proof (udpPayload_head_nil data size) as Hn.
  destruct (udpPayload data size) as [head tail]. cbn [fst] in Hn.
  destruct (len head =? 0) eqn:Eh.
  - apply Z.eqb_eq in Eh. now apply Hn in Eh.
  - unfold conn_Write. now rewrite He.
Qed.

End UDPMore.

Section UDPMoreWitnesses.
Import UDP Fixtures.

Lemma udpWrite_resends_payload_witness :
  udpWrite quiet_conn three_lines 4
  = (mkConn ([] ++ repeat three_lines (length (chunks three_lines 4)))
       (fun _ _ => None) None, None).
Proof. apply (udpWrite_resends_payload quiet_conn three_lines 4). reflexivity. Defined.

Lemma udpWrite_stops_on_error_witness :
  udpWrite dead_conn three_lines 4
  = (mkConn ([] ++ [three_lines]) (write_err dead_conn) None, Some Sample.refused).
Proof.
  apply (udpWrite_stops_on_error dead_conn three_lines 4 Sample.refused);
    [discriminate|reflexivity].
Defined.

Lemma chunks_idempotent_witness :
  chunks (B "a") 4 = [B "a"].
Proof.
  apply (chunks_idempotent three_lines (B "a") 4). left. reflexivity.
Defined.

End UDPMoreWitnesses.

(* ------------------------------------------------------------------ *)
(** ** Responses and batches *)

Section TypesMore.
Context {Point : Type} `{Models Point}.

Lemma filter_err_cons (res : Result) (rs : list Result) :
  filter (fun x => negb (is_empty (r_Err x))) (res :: rs)
  = if is_empty (r_Err res)
    then filter (fun x => negb (is_empty (r_Err x))) rs
    else res :: filter (fun x => negb (is_empty (r_Err x))) rs.
Proof.
  rewrite filter_cons. now destruct (is_empty (r_Err res)).
Qed.

(** X5. A response reports no error exactly when its own error string and
    the error string of every one of its results are empty. *)
Theorem Response_Error_none_iff (r : Response) :
  Response_Error r = None
  <-> Err r = [] /\ Forall (fun res => r_Err res = []) (Results r).
Proof.
  unfold Response_Error. destruct (Err r) as [|a e]; simpl.
  - split.
    + intros Hf. split; [reflexivity|].
      induction (Results r) as [|res rs IH]; [constructor|].
      rewrite filter_err_cons in Hf.
      destruct (r_Err res) as [|x l] eqn:Ee; simpl in Hf; [|discriminate].
      constructor; [assumption|now apply IH].
    + intros [_ Hall]. induction Hall as [|res rs Hres _ IH]; [reflexivity|].
      rewrite filter_err_cons, Hres. exact IH.
  - split; [discriminate|]. now intros [Hn _].
Qed.

(** X6. The error of a response is built by [fmt.Errorf] with no
    arguments and, as its format, the response's own error string when that
    is not empty, and otherwise the error string of the first result that
    has one. The string is the format, not the message: a percent sign in
    it is read as a verb. *)
Theorem Response_Error_first (r : Response) :
  (Err r <> [] ->
     Response_Error r = Some (fmt_Errorf (string_of_list_ascii (Err r)) []))
  /\ (forall before res after,
        Err r = [] ->
        Results r = before ++ res :: after ->
        Forall (fun x => r_Err x = []) before ->
        r_Err res <> [] ->
        Response_Error r
        = Some (fmt_Errorf (string_of_list_ascii (r_Err res)) [])).
Proof.
  unfold Response_Error. split.
  - intros Hn. destruct (Err r); [now destruct Hn|reflexivity].
  - intros before res after -> -> Hall Hres. simpl.
    induction Hall as [|x xs Hx _ IH]; cbn [app]; rewrite filter_err_cons.
    + destruct (is_empty (r_Err res)) eqn:Ee; [|reflexivity].
      destruct (r_Err res); [now destruct Hres|discriminate].
    + now rewrite Hx.
Qed.

(** X7. Serializing after adding points gives the payload of the batch
    followed by the payload of the added points; adding one point is adding
    the list of that point, and the empty batch serializes to nothing. *)
Theorem Bytes_AddPoints (bp : BatchPoints Point) (ps : list Point)
    (p : Point) (precision : bytes) :
  Bytes (AddPoints bp ps) precision
  = Bytes bp precision ++ Bytes (mkBatchPoints ps) precision
  /\ AddPoint bp p = AddPoints bp [p]
  /\ Bytes (mkBatchPoints (@nil Point)) precision = [].
Proof.
  split; [|split; reflexivity].
  rewrite !Bytes_concat. cbn [AddPoints points].
  now rewrite map_app, concat_app.
Qed.

Lemma lines_from_app_line (cur l rest : bytes) :
  forallb Regexp.not_newline l = true ->
  lines_from cur (l ++ newline :: rest)
  = (cur ++ l ++ [newline]) :: lines_from [] rest.
Proof.
  revert cur. induction l as [|a l IH]; intros cur Hl.
  - reflexivity.
  - simpl in Hl. apply andb_true_iff in Hl as [Ha Hl].
    cbn [app lines_from]. unfold Regexp.not_newline in Ha.
    destruct (Ascii.eqb a newline); [discriminate|].
    rewrite IH by assumption. now rewrite <- !app_assoc.
Qed.

(** X8. When the text of no point holds a newline, the lines of the
    payload of a batch are the texts of its points, in order, each with its
    newline: the payload can be split back into its points. *)
Theorem lines_Bytes (bp : BatchPoints Point) (precision : bytes) :
  Forall (fun p => forallb Regexp.not_newline (PrecisionString p precision) = true)
         (points bp) ->
  lines (Bytes bp precision)
  = map (fun p => PrecisionString p precision ++ [newline]) (points bp).
Proof.
  rewrite Bytes_concat. unfold lines. intros Hall.
  induction Hall as [|p ps Hp _ IH]; [reflexivity|].
  cbn [map concat]. rewrite <- app_assoc. cbn [app].
  rewrite lines_from_app_line by assumption. now rewrite IH.
Qed.

End TypesMore.

Section TypesMoreWitnesses.
Import Sample Fixtures.

Lemma Response_Error_first_witness :
  Response_Error failed_second
  = Some (fmt_Errorf "database not found" []).
Proof.
  apply (proj2 (Response_Error_first failed_second)
           [mkResult [] [] []] (mkResult [] [] (B "database not found")) []);
    [reflexivity|reflexivity|now repeat constructor|discriminate].
Defined.

Lemma lines_Bytes_witness :
  lines (Bytes batch1 (B "ns"))
  = [B "cpu value=1 1" ++ [newline]; B "cpu value=2 2" ++ [newline]].
Proof.
  exact (lines_Bytes batch1 (B "ns") ltac:(now repeat constructor)).
Defined.

End TypesMoreWitnesses.

(* ------------------------------------------------------------------ *)
(** ** The HTTP client *)

Ltac neq_keys := let E := fresh in intros E; vm_compute in E; discriminate E.

Ltac lookup_params :=
  unfold Values in *;
  repeat first [ rewrite lookup_insert_eq
               | rewrite lookup_insert_ne by neq_keys ].

Section HTTPMore.
Context `{GoLib}.

(** X9. [NewHTTPClient] returns a client exactly when the address parses
    with the scheme http or https. The client then has that parsed address,
    the credentials of the configuration, a user agent that is never empty
    (InfluxDBClient when the configuration has none) and no request made. *)
Theorem NewHTTPClient_ok (conf : HTTPConfig) :
  ((exists c, NewHTTPClient conf = inl c)
   <-> exists u, url_Parse (Addr conf) = inl u
                 /\ (Scheme u = B "http" \/ Scheme u = B "https"))
  /\ (forall c, NewHTTPClient conf = inl c ->
        url_Parse (Addr conf) = inl (url c)
        /\ username c = cfg_Username conf
        /\ password c = cfg_Password conf
        /\ useragent c <> []
        /\ useragent c
           = (if is_empty (UserAgent conf) then B "InfluxDBClient"
              else UserAgent conf)
        /\ requests c = []).
Proof.
  unfold NewHTTPClient. destruct (url_Parse (Addr conf)) as [u|err].
  - destruct (eqb_bytes (Scheme u) (B "http")) eqn:Eh.
    + apply eqb_bytes_eq in Eh. cbn [negb andb]. split.
      * split; [intros _; exists u; auto|eauto].
      * intros c [= <-]. cbn. repeat split.
        destruct (UserAgent conf); discriminate.
    + destruct (eqb_bytes (Scheme u) (B "https")) eqn:Es; cbn [negb andb].
      * apply eqb_bytes_eq in Es. split.
        -- split; [intros _; exists u; auto|eauto].
        -- intros c [= <-]. cbn. repeat split.
           destruct (UserAgent conf); discriminate.
      * apply eqb_bytes_neq in Eh, Es. split; [|discriminate].
        split; [intros [c Hc]; discriminate|].
        intros (u' & [= <-] & [Hu|Hu]); contradiction.
  - split; [|discriminate].
    split; [intros [c Hc]; discriminate|intros (u & Hu & _); discriminate].
Qed.

Lemma httpClient_Write_request (c : httpClient) (lineData : bytes)
    (cfg : WriteConfig) :
  httpClient_Write c lineData cfg
  = match http_NewRequest "POST" (with_Path (url c) (B "write")) with
    | Some err => (c, Some err)
    | None =>
        match Do c (Write_request c lineData cfg) with
        | (c', inr err) => (c', Some err)
        | (c', inl resp) =>
            match ReadAll resp with
            | inr err => (c', Some err)
            | inl body =>
                if negb (StatusCode resp =? StatusNoContent)
                   && negb (StatusCode resp =? StatusOK)
                then (c', Some (fmt_Errorf (as_format body) []))
                else (c', None)
            end
        end
    end.
Proof. reflexivity. Qed.

(** X10. When the request can be built, the server answers and the body
    can be read, [httpClient.Write] makes exactly one request and returns
    no error exactly when the status is 200 or 204; with any other status
    its error is built by [fmt.Errorf] with no arguments and the body of
    the answer as the format, so that a percent sign in the body is read as
    a verb. *)
Theorem httpClient_Write_status (c : httpClient) (lineData : bytes)
    (cfg : WriteConfig) (resp : HTTPResponse) :
  http_NewRequest "POST" (with_Path (url c) (B "write")) = None ->
  http_RoundTrip (requests c) (Write_request c lineData cfg) = inl resp ->
  resp_BodyErr resp = None ->
  fst (httpClient_Write c lineData cfg)
  = with_requests c (requests c ++ [Write_request c lineData cfg])
  /\ (snd (httpClient_Write c lineData cfg) = None
      <-> StatusCode resp = 200 \/ StatusCode resp = 204)
  /\ (StatusCode resp <> 200 -> StatusCode resp <> 204 ->
      snd (httpClient_Write c lineData cfg)
      = Some (fmt_Errorf (string_of_list_ascii (resp_Body resp)) [])).
Proof.
  intros Hn Hr Hb. rewrite httpClient_Write_request, Hn. unfold Do, ReadAll.
  rewrite Hr, Hb. unfold StatusNoContent, StatusOK.
  destruct (StatusCode resp =? 204) eqn:E4; cbn [negb andb fst snd].
  - apply Z.eqb_eq in E4. repeat split; auto. intros; lia.
  - destruct (StatusCode resp =? 200) eqn:E2; cbn [negb andb fst snd].
    + apply Z.eqb_eq in E2. repeat split; auto. intros; lia.
    + apply Z.eqb_neq in E4, E2. repeat split; try discriminate.
      intros [?|?]; contradiction.
Qed.

(** X11. The request of a write has the line data as body. Its parameters
    are those of the client's address with db set to the database, and with
    rp, precision and consistency set only when the configuration gives
    them; no other parameter changes. *)
Theorem Write_request_params (c : httpClient) (lineData : bytes)
    (cfg : WriteConfig) :
  let req := Write_request c lineData cfg in
  let v := RawQuery (req_URL req) in
  let base := RawQuery (url c) in
  Body req = lineData
  /\ v !! B "db" = Some [wc_Database cfg]
  /\ v !! B "rp"
     = (if is_empty (wc_RetentionPolicy cfg) then base !! B "rp"
        else Some [wc_RetentionPolicy cfg])
  /\ v !! B "precision"
     = (if is_empty (wc_Precision cfg) then base !! B "precision"
        else Some [wc_Precision cfg])
  /\ v !! B "consistency"
     = (if is_empty (wc_WriteConsistency cfg) then base !! B "consistency"
        else Some [wc_WriteConsistency cfg])
  /\ (forall k, k <> B "db" -> k <> B "rp" -> k <> B "precision" ->
        k <> B "consistency" -> v !! k = base !! k).
Proof.
  cbv zeta. unfold Write_request, Values_Set.
  cbn [Method req_URL Body with_RawQuery with_Path Path RawQuery].
  split; [reflexivity|].
  destruct (is_empty (wc_RetentionPolicy cfg));
    destruct (is_empty (wc_Precision cfg));
    destruct (is_empty (wc_WriteConsistency cfg)); cbn [negb].
  all: (split; [now lookup_params|]); (split; [now lookup_params|]);
    (split; [now lookup_params|]); (split; [now lookup_params|]);
    intros k H1 H2 H3 H4; unfold Values in *;
    now rewrite ?lookup_insert_ne by congruence.
Qed.

(** X12. The request of a query has no body; its parameters are those of
    the client's address with q set to the command and db to the database,
    and with epoch set only when the query has a precision; no other
    parameter changes. *)
Theorem Query_request_params (c : httpClient) (q : Query) :
  let req := Query_request c q in
  let v := RawQuery (req_URL req) in
  let base := RawQuery (url c) in
  Body req = []
  /\ v !! B "q" = Some [q_Command q]
  /\ v !! B "db" = Some [q_Database q]
  /\ v !! B "epoch"
     = (if is_empty (q_Precision q) then base !! B "epoch"
        else Some [q_Precision q])
  /\ (forall k, k <> B "q" -> k <> B "db" -> k <> B "epoch" ->
        v !! k = base !! k).
Proof.
  cbv zeta. unfold Query_request, Values_Set.
  cbn [Method req_URL Body with_RawQuery with_Path Path RawQuery].
  split; [reflexivity|].
  destruct (is_empty (q_Precision q)); cbn [negb];
    (split; [now lookup_params|]); (split; [now lookup_params|]);
    (split; [now lookup_params|]);
    intros k H1 H2 H3; unfold Values in *;
    now rewrite ?lookup_insert_ne by congruence.
Qed.

Lemma Query_decode_not_nil (resp : HTTPResponse) :
  fst (Query_decode resp) = None -> is_Some (snd (Query_decode resp)).
Proof.
  unfold Query_decode.
  destruct (json_Decode _ _) as [response [msg|]].
  - destruct (eqb_bytes msg (B "EOF") && negb (StatusCode resp =? StatusOK)).
    + destruct (negb _ && negb _); discriminate.
    + intros _. eexists. reflexivity.
  - destruct (negb _ && negb _); discriminate.
Qed.

Lemma httpClient_Query_not_nil (c : httpClient) (q : Query) :
  fst (snd (httpClient_Query c q)) = None ->
  is_Some (snd (snd (httpClient_Query c q))).
Proof.
  unfold httpClient_Query.
  destruct (http_NewRequest _ _); [intros _; eexists; reflexivity|].
  destruct (Do c (Query_request c q)) as [c' [resp|err]].
  - apply Query_decode_not_nil.
  - intros _. eexists. reflexivity.
Qed.

(** X13. [httpClient.Query] never returns a nil response without an error,
    and it makes no request when the request cannot be built and exactly one
    otherwise. *)
Theorem httpClient_Query_response_or_error (c : httpClient) (q : Query) :
  (fst (snd (httpClient_Query c q)) = None ->
     is_Some (snd (snd (httpClient_Query c q))))
  /\ requests (fst (httpClient_Query c q))
     = match http_NewRequest "POST" (with_Path (url c) (B "query")) with
       | Some _ => requests c
       | None => requests c ++ [Query_request c q]
       end.
Proof.
  split; [apply httpClient_Query_not_nil|].
  unfold httpClient_Query.
  destruct (http_NewRequest _ _); [reflexivity|].
  unfold Do. now destruct (http_RoundTrip _ _).
Qed.

End HTTPMore.

(* ------------------------------------------------------------------ *)
(** ** Executing statements *)

Section ExecMore.
Context {C Point : Type} `{Client C} `{Models Point}.
Implicit Types (s : store C Point) (cn : conn C).

Lemma stmt_Exec_no_conn s (st : stmt) (msg : string) :
  conns s !! stmt_conn st = None -> stmt_Exec st s = Panic nil_deref.
Proof.
  intros Hc. run. destruct s as [cs ts bs]. simpl in *. now rewrite Hc.
Qed.

(** X14. When a generic statement returns a result it returns no error: the
    client answered the query whose command is the statement text and whose
    database and precision are those of the connection with a response that
    reports no error, and the result has 0 as last inserted id and the
    number of result blocks of that response as rows affected. A result and
    an error never come together. *)
Theorem stmt_Exec_result s (st : stmt) (res : result) (err : option error)
    (s' : store C Point) :
  stmt_Exec st s = Ret ((Some res, err), s') ->
  err = None
  /\ exists cn c' r,
       conns s !! stmt_conn st = Some cn
       /\ Client_Query (conn_c cn)
            (mkQuery (stmt_query st) (conn_database cn) (conn_precision cn))
          = (c', (Some r, None))
       /\ Response_Error r = None
       /\ res = mk_result 0 (Z.of_nat (length (Results r))).
Proof.
  destruct (conns s !! stmt_conn st) as [cn|] eqn:Hc.
  - rewrite (stmt_Exec_run s st cn Hc).
    destruct (Client_Query _ _) as [c' [resp [e|]]] eqn:Eq; [discriminate|].
    destruct resp as [r|]; [|discriminate].
    destruct (Response_Error r) eqn:Er; [discriminate|].
    intros [= <- <- <-]. split; [reflexivity|]. exists cn, c', r.
    repeat split; assumption.
  - rewrite (stmt_Exec_no_conn s st nil_deref Hc). discriminate.
Qed.

End ExecMore.

Section ExecOverClients.
Context {Point : Type} `{Models Point}.

(** X15. Over the UDP client a generic statement always fails with the
    error that querying is not supported; nothing is sent and the store is
    left as it was. *)
Theorem stmt_Exec_over_udp (s : store udpclient Point) (st : stmt)
    (cn : conn udpclient) :
  conns s !! stmt_conn st = Some cn ->
  stmt_Exec st s
  = Ret ((None, Some (fmt_Errorf "Querying via UDP is not supported" [])), s).
Proof.
  intros Hc. rewrite (stmt_Exec_run s st cn Hc). cbn.
  destruct s as [cs ts bs], cn as [cl db pr otx]. cbn in *.
  now rewrite insert_id.
Qed.

Context `{GoLib}.

(** X16. Over the HTTP client a generic statement on a connection of the
    store never panics: the response is only read when the client returned
    no error, and then it is not nil. *)
Theorem stmt_Exec_over_http_returns (s : store httpClient Point) (st : stmt)
    (cn : conn httpClient) :
  conns s !! stmt_conn st = Some cn ->
  exists r s', stmt_Exec st s = Ret (r, s').
Proof.
  intros Hc. rewrite (stmt_Exec_run s st cn Hc).
  pose proof (httpClient_Query_not_nil (conn_c cn)
                (NewQuery (stmt_query st) (conn_database cn) (conn_precision cn)))
    as Hn.
  change (@Client_Query httpClient httpClient_Client) with httpClient_Query.
  destruct (httpClient_Query _ _) as [c' [resp err]]. cbn [fst snd] in Hn.
  destruct err as [e|]; [eauto|].
  destruct resp as [r|]; [|destruct (Hn eq_refl); discriminate].
  destruct (Response_Error r); eauto.
Qed.

(** X17. Over the HTTP client a generic statement never succeeds on an
    answer whose status is not 200: it returns an error and no result,
    whatever the body of the answer. *)
Theorem stmt_Exec_over_http_status (s : store httpClient Point) (st : stmt)
    (cn : conn httpClient) (resp : HTTPResponse) :
  let q := NewQuery (stmt_query st) (conn_database cn) (conn_precision cn) in
  conns s !! stmt_conn st = Some cn ->
  http_NewRequest "POST" (with_Path (url (conn_c cn)) (B "query")) = None ->
  http_RoundTrip (requests (conn_c cn)) (Query_request (conn_c cn) q) = inl resp ->
  StatusCode resp <> StatusOK ->
  exists e s', stmt_Exec st s = Ret ((None, Some e), s').
Proof.
  intros q Hc Hn Hr Hs. rewrite (stmt_Exec_run s st cn Hc). fold q.
  pose proof (httpClient_Query_decode (conn_c cn) q resp Hn Hr) as Hd.
  change (@Client_Query httpClient httpClient_Client) with httpClient_Query.
  destruct (httpClient_Query (conn_c cn) q) as [c' [rsp err]]. cbn [snd] in Hd.
  unfold Query_decode in Hd. apply Z.eqb_neq in Hs. rewrite Hs in Hd.
  cbn [negb] in Hd.
  destruct (json_Decode _ _) as [response [msg|]].
  - destruct (eqb_bytes msg (B "EOF")); cbn [andb] in Hd.
    + destruct (Response_Error response) eqn:Er.
      * injection Hd as -> ->. cbn. rewrite Er. eauto.
      * injection Hd as -> ->. eauto.
    + injection Hd as -> ->. eauto.
  - cbn [andb] in Hd. destruct (Response_Error response) eqn:Er.
    + injection Hd as -> ->. cbn. rewrite Er. eauto.
    + injection Hd as -> ->. eauto.
Qed.

End ExecOverClients.

(* ------------------------------------------------------------------ *)
(** ** Well-formed stores *)

Section StoreMore.
Context {C Point : Type} `{Client C} `{Models Point}.
Implicit Types (s : store C Point) (cn : conn C) (T : tx) (bp : BatchPoints Point).

Lemma is_Some_insert {A} (m : gmap loc A) (k k' : loc) (v : A) :
  is_Some (m !! k) -> is_Some (<[k' := v]> m !! k).
Proof.
  intros Hk. apply lookup_insert_is_Some.
  destruct (decide (k' = k)); [now left|now right].
Qed.

Lemma wf_update_conn s (c : loc) cn cn' :
  wf_store s -> conns s !! c = Some cn ->
  conn_tx cn' = conn_tx cn \/ conn_tx cn' = None ->
  wf_store (mk_store (<[c := cn']> (conns s)) (txs s) (batches s)).
Proof.
  intros [Htx Hslot] Hc Hcn. split; cbn [conns txs batches].
  - intros t T Ht. destruct (Htx t T Ht) as [Hconn Hb]. split; [|exact Hb].
    cbn [conns]. now apply is_Some_insert.
  - intros c0 cn0 t Hc0 Ht. destruct (decide (c = c0)) as [<-|Hne].
    + rewrite lookup_insert_eq in Hc0. injection Hc0 as <-.
      destruct Hcn as [Hsame|Hnone]; [|congruence].
      apply (Hslot c cn t Hc). congruence.
    + rewrite lookup_insert_ne in Hc0 by assumption. now apply (Hslot c0 cn0).
Qed.

(** X18. On a well-formed store, Begin on a connection of the store does
    not panic and leaves the store well formed, whether it starts a
    transaction or refuses to. *)
Theorem conn_Begin_keeps_wf s (c : loc) cn :
  wf_store s -> conns s !! c = Some cn ->
  exists r s', conn_Begin c s = Ret (r, s') /\ wf_store s'.
Proof.
  intros Hwf Hc. destruct (conn_tx cn) as [t0|] eqn:Ht.
  - rewrite (conn_Begin_open s c cn t0 Hc Ht). eauto.
  - rewrite (conn_Begin_fresh s c cn Hc Ht). eexists _, _.
    split; [reflexivity|]. destruct Hwf as [Htx Hslot].
    pose proof (fresh_tx_unused s) as Hft.
    split; cbn [conns txs batches].
    + intros t T HT. destruct (decide (fresh (dom (txs s)) = t)) as [<-|Hne].
      * rewrite lookup_insert_eq in HT. injection HT as <-.
        split; cbn [conns batches tx_conn tx_bp];
          rewrite lookup_insert_eq; eauto.
      * rewrite lookup_insert_ne in HT by assumption.
        destruct (Htx t T HT) as [Hconn Hb].
        split; cbn [conns batches]; now apply is_Some_insert.
    + intros c0 cn0 t Hc0 Hs. destruct (decide (c = c0)) as [<-|Hne].
      * rewrite lookup_insert_eq in Hc0. injection Hc0 as <-.
        cbn [conn_tx] in Hs. injection Hs as <-.
        rewrite lookup_insert_eq. eauto.
      * rewrite lookup_insert_ne in Hc0 by assumption.
        destruct (Hslot c0 cn0 t Hc0 Hs) as (T & HT & HTc).
        exists T. split; [|exact HTc].
        rewrite lookup_insert_ne; [exact HT|]. intros E. congruence.
Qed.

(** X19. On a well-formed store, Commit and Rollback of any transaction of
    the store do not panic and leave the store well formed, with the
    transaction slot of the transaction's connection nil. *)
Theorem tx_end_keeps_wf s (t : loc) T :
  wf_store s -> txs s !! t = Some T ->
  (exists err s' cn',
     tx_Commit t s = Ret (err, s') /\ wf_store s'
     /\ conns s' !! tx_conn T = Some cn' /\ conn_tx cn' = None)
  /\ (exists s' cn',
        tx_Rollback t s = Ret (None, s') /\ wf_store s'
        /\ conns s' !! tx_conn T = Some cn' /\ conn_tx cn' = None).
Proof.
  intros Hwf Ht. pose proof Hwf as [Htx Hslot].
  destruct (Htx t T Ht) as [[cn Hc] [bp Hb]]. split.
  - rewrite (tx_Commit_run s t T cn bp Ht Hc Hb).
    destruct (Client_Write _ _ _) as [c' err]. eexists err, _, _.
    split; [reflexivity|].
    split; [apply (wf_update_conn s (tx_conn T) cn); auto|].
    cbn [conns]. split; [apply lookup_insert_eq|reflexivity].
  - rewrite (tx_Rollback_run s t T cn Ht Hc). eexists _, _.
    split; [reflexivity|]. cbn [conns].
    split; [|split; [apply lookup_insert_eq|reflexivity]].
    split; cbn [conns txs batches].
    + intros t0 T0 HT0. destruct (decide (t = t0)) as [<-|Hne].
      * rewrite lookup_insert_eq in HT0. injection HT0 as <-.
        split; cbn [conns batches tx_conn tx_bp];
          rewrite lookup_insert_eq; eauto.
      * rewrite lookup_insert_ne in HT0 by assumption.
        destruct (Htx t0 T0 HT0) as [Hconn Hbt].
        split; cbn [conns batches]; now apply is_Some_insert.
    + intros c0 cn0 t0 Hc0 Hs. destruct (decide (tx_conn T = c0)) as [<-|Hne].
      * rewrite lookup_insert_eq in Hc0. injection Hc0 as <-. discriminate.
      * rewrite lookup_insert_ne in Hc0 by assumption.
        destruct (Hslot c0 cn0 t0 Hc0 Hs) as (T0 & HT0 & HTc).
        exists T0. split; [|exact HTc].
        rewrite lookup_insert_ne; [exact HT0|]. intros E. subst t0.
        congruence.
Qed.

(** X20. Executing a statement that returns leaves a well-formed store
    well formed and changes no transaction slot, no transaction and no
    batch. *)
Theorem Stmt_Exec_keeps_wf s (st : Stmt) r s' :
  wf_store s -> Stmt_Exec st s = Ret (r, s') ->
  wf_store s'
  /\ txs s' = txs s /\ batches s' = batches s
  /\ (forall c cn, conns s !! c = Some cn ->
        exists cn', conns s' !! c = Some cn' /\ conn_tx cn' = conn_tx cn).
Proof.
  intros Hwf.
  assert (Hupd : forall c cn c',
            conns s !! c = Some cn ->
            let s1 := mk_store
                        (<[c := mk_conn c' (conn_database cn) (conn_precision cn)
                                  (conn_tx cn)]> (conns s)) (txs s) (batches s) in
            wf_store s1 /\ txs s1 = txs s /\ batches s1 = batches s
            /\ (forall c0 cn0, conns s !! c0 = Some cn0 ->
                  exists cn', conns s1 !! c0 = Some cn'
                              /\ conn_tx cn' = conn_tx cn0)).
  { intros c cn c' Hc s1. split; [apply (wf_update_conn s c cn); auto|].
    split; [reflexivity|]. split; [reflexivity|].
    intros c0 cn0 Hc0. subst s1. cbn [conns].
    destruct (decide (c = c0)) as [<-|Hne].
    - rewrite lookup_insert_eq. eexists. split; [reflexivity|]. cbn. congruence.
    - rewrite lookup_insert_ne by assumption. eauto. }
  destruct st as [g|i]; cbn [Stmt_Exec].
  - destruct (conns s !! stmt_conn g) as [cn|] eqn:Hc.
    + rewrite (stmt_Exec_run s g cn Hc).
      destruct (Client_Query _ _) as [c' [resp err]].
      specialize (Hupd _ cn c' Hc). cbv zeta in *.
      destruct err as [e|]; [now intros [= <- <-]|].
      destruct resp as [rsp|]; [|discriminate].
      destruct (Response_Error rsp); now intros [= <- <-].
    + rewrite (stmt_Exec_no_conn s g nil_deref Hc). discriminate.
  - destruct (conns s !! ins_conn i) as [cn|] eqn:Hc.
    + rewrite (insertStmt_Exec_run s i cn Hc).
      destruct (Client_Write _ _ _) as [c' err].
      specialize (Hupd _ cn c' Hc). now intros [= <- <-].
    + unfold insertStmt_Exec. run. destruct s as [cs ts bs]. cbn in *.
      now rewrite Hc.
Qed.

(** X21. Begin followed at once by Commit hands the client one write with
    an empty payload and write options whose database is that of the
    connection and whose other fields are empty, and leaves the transaction
    slot nil. *)
Theorem begin_commit_writes_nothing s (c : loc) cn :
  conns s !! c = Some cn -> conn_tx cn = None ->
  exists c' err s',
    Client_Write (conn_c cn) [] (mkWriteConfig [] (conn_database cn) [] [])
    = (c', err)
    /\ begin_commit c s = Ret (err, s')
    /\ conns s' !! c
       = Some (mk_conn c' (conn_database cn) (conn_precision cn) None).
Proof.
  intros Hc Ht. unfold begin_commit. cbv [mbind M_bind bind].
  rewrite (conn_Begin_fresh s c cn Hc Ht). red_match.
  match goal with |- context [tx_Commit ?t ?s1] =>
    rewrite (tx_Commit_run s1 t (mk_tx c (fresh (dom (batches s))))
               (mk_conn (conn_c cn) (conn_database cn) (conn_precision cn)
                  (Some t))
               (mkBatchPoints [])
               ltac:(apply lookup_insert_eq) ltac:(apply lookup_insert_eq)
               ltac:(apply lookup_insert_eq))
  end.
  cbn [conn_c conn_database conn_precision tx_conn].
  change (Bytes (mkBatchPoints []) (B "ns")) with (@nil ascii).
  change (WriteConfig_for (conn_database cn))
    with (mkWriteConfig [] (conn_database cn) [] []).
  destruct (Client_Write _ _ _) as [c' err]. eexists c', err, _.
  split; [reflexivity|]. split; [reflexivity|]. apply lookup_insert_eq.
Qed.

(** X22. Commit does not consume the batch: committing the same transaction
    a second time hands the client the same payload again, on the client as
    the first write left it. *)
Theorem commit_twice_writes_twice s (t : loc) T cn bp :
  txs s !! t = Some T ->
  conns s !! tx_conn T = Some cn ->
  batches s !! tx_bp T = Some bp ->
  exists c1 e1 c2 e2 s',
    Client_Write (conn_c cn) (payload_ns (points bp))
      (WriteConfig_for (conn_database cn)) = (c1, e1)
    /\ Client_Write c1 (payload_ns (points bp))
         (WriteConfig_for (conn_database cn)) = (c2, e2)
    /\ commit_twice t s = Ret ((e1, e2), s')
    /\ conns s' !! tx_conn T
       = Some (mk_conn c2 (conn_database cn) (conn_precision cn) None).
Proof.
  intros Ht Hc Hb. unfold commit_twice. cbv [mbind mret M_bind M_ret bind ret].
  rewrite (tx_Commit_run s t T cn bp Ht Hc Hb), Bytes_concat.
  fold (payload_ns (points bp)).
  destruct (Client_Write (conn_c cn) _ _) as [c1 e1] eqn:E1. red_match.
  match goal with |- context [tx_Commit t ?s1] =>
    rewrite (tx_Commit_run s1 t T
               (mk_conn c1 (conn_database cn) (conn_precision cn) None) bp
               Ht ltac:(apply lookup_insert_eq) Hb)
  end.
  rewrite Bytes_concat. fold (payload_ns (points bp)).
  cbn [conn_c conn_database conn_precision].
  destruct (Client_Write c1 _ _) as [c2 e2] eqn:E2. red_match.
  eexists c1, e1, c2, e2, _. split; [reflexivity|]. split; [exact E2|].
  split; [reflexivity|]. cbn [conns]. rewrite insert_insert_eq.
  apply lookup_insert_eq.
Qed.

End StoreMore.

(* ------------------------------------------------------------------ *)
(** ** The statement router, further *)

Section RouterMore.
Import Regexp.

Lemma fold_INSERT_head (k1 : bytes) :
  fold_eqb (B "INSERT") k1 = true ->
  exists k', k1 = "I"%char :: k' \/ k1 = "i"%char :: k'.
Proof.
  intros Hw. apply fold_eqb_cons in Hw as (e & t' & Hin & -> & _).
  vm_compute in Hin. destruct Hin as [<-|[<-|[]]]; eauto.
Qed.

(** X23. An insert statement that [newStmt] returns is bound to the given
    connection; its database is not empty and made of identifier bytes, and
    its body holds no newline: it is the text after the dot of the pattern
    up to the first newline. [newStmt] never returns an error. *)
Theorem newStmt_insert_shape (c : loc) (q : bytes) (st : insertStmt) :
  fst (newStmt c q) = InsertStmt st ->
  ins_conn st = c
  /\ run_of is_ident (ins_db st) = true
  /\ forallb not_newline (ins_query st) = true
  /\ (exists rest,
        insert_pattern q (ins_db st) rest /\ ins_query st = first_line rest)
  /\ snd (newStmt c q) = None.
Proof.
  intros Hst.
  assert (Hp : exists db rest, insert_pattern q db rest).
  { unfold newStmt, FindStringSubmatch in Hst.
    destruct (find_from rxInsert 0 q) as [cs|] eqn:Ef; [|discriminate].
    now apply (rxInsert_inv q cs). }
  destruct Hp as (db & rest & Hp).
  rewrite (newStmt_insert c q db rest Hp) in Hst |- *. cbn [fst snd] in *.
  injection Hst as <-. cbn [ins_conn ins_db ins_query].
  split; [reflexivity|]. split.
  - now destruct Hp as (k1 & w1 & k2 & w2 & _ & _ & _ & _ & _ & Hdb).
  - split; [apply first_line_all|]. split; [now exists rest|reflexivity].
Qed.

(** X24. For a text of the pattern, the statement is an insert on the
    identifier whose body is the text after the dot up to the first
    newline; what follows that newline is not part of the statement. *)
Theorem newStmt_body_first_line (c : loc) (q db rest : bytes) :
  insert_pattern q db rest ->
  newStmt c q = (InsertStmt (mk_insertStmt c db (first_line rest)), None)
  /\ first_line rest ++ after_line rest = rest.
Proof.
  intros Hp. split; [now apply newStmt_insert|apply first_line_split].
Qed.

(** X25. A text that is empty or starts with a byte other than I and i,
    white space included, is a generic statement. *)
Theorem newStmt_leading_byte (c : loc) (q : bytes) :
  match q with
  | [] => True
  | a :: _ => a <> "I"%char /\ a <> "i"%char
  end ->
  newStmt c q = (GenericStmt (mk_stmt c q), None).
Proof.
  intros Hq. apply newStmt_generic.
  intros db rest (k1 & w1 & k2 & w2 & -> & Hk1 & _).
  destruct (fold_INSERT_head k1 Hk1) as (k' & [->| ->]);
    cbn [app] in Hq; destruct Hq as [HI Hi]; congruence.
Qed.

End RouterMore.

(* ------------------------------------------------------------------ *)
(** ** Open, further *)

Section OpenMore.
Context {Point : Type} `{GoLib}.
Implicit Types (s : store httpClient Point).

Lemma Open_http s (name : bytes) (uri : URL) (c : httpClient) :
  url_Parse name = inl uri -> Scheme uri = B "http" ->
  NewHTTPClient (open_config uri) = inl c ->
  Open name s
  = Ret ((Some (fresh (dom (conns s))), None),
         mk_store
           (<[fresh (dom (conns s))
              := mk_conn c (TrimPrefix (Path uri) (B "/")) (open_precision uri)
                   None]> (conns s))
           (txs s) (batches s)).
Proof.
  intros Hu Hs Hc. unfold Open. rewrite Hu, Hs.
  change (eqb_bytes (B "http") (B "udp")) with false.
  change (eqb_bytes (B "http") (B "http")) with true. cbv iota.
  now rewrite Hc.
Qed.

(** X26. A connection that Open returns has no transaction, a precision
    that is never empty, and Begin on it starts a transaction with an empty
    batch. *)
Theorem Open_then_Begin s (name : bytes) (uri : URL) (c : httpClient) :
  url_Parse name = inl uri -> Scheme uri = B "http" ->
  NewHTTPClient (open_config uri) = inl c ->
  open_precision uri <> []
  /\ exists l t b s',
       open_begin name s = Ret ((Some t, None), s')
       /\ conns s !! l = None
       /\ conns s' !! l
          = Some (mk_conn c (TrimPrefix (Path uri) (B "/")) (open_precision uri)
                    (Some t))
       /\ txs s' !! t = Some (mk_tx l b)
       /\ batches s' !! b = Some (mkBatchPoints []).
Proof.
  intros Hu Hs Hc. split.
  { unfold open_precision. destruct (Values_Get _ _); discriminate. }
  unfold open_begin. cbv [mbind M_bind bind].
  rewrite (Open_http s name uri c Hu Hs Hc). red_match.
  match goal with |- context [conn_Begin ?l ?s1] =>
    rewrite (conn_Begin_fresh s1 l
               (mk_conn c (TrimPrefix (Path uri) (B "/")) (open_precision uri)
                  None)
               ltac:(apply lookup_insert_eq) eq_refl)
  end.
  eexists _, _, _, _. split; [reflexivity|]. cbn [conns txs batches].
  split; [apply not_elem_of_dom, is_fresh|].
  split; [apply lookup_insert_eq|]. split; apply lookup_insert_eq.
Qed.

(** X27. Open that returns leaves a well-formed store well formed: it
    changes no transaction and no batch, and every connection of the store
    is left as it was. *)
Theorem Open_keeps_wf s (name : bytes) r s' :
  wf_store s -> Open name s = Ret (r, s') ->
  wf_store s'
  /\ txs s' = txs s /\ batches s' = batches s
  /\ (forall l cn, conns s !! l = Some cn -> conns s' !! l = Some cn).
Proof.
  intros Hwf. unfold Open.
  destruct (url_Parse name) as [uri|err]; [|now intros [= <- <-]].
  destruct (eqb_bytes (Scheme uri) (B "udp")); [discriminate|].
  destruct (eqb_bytes (Scheme uri) (B "http")); [|now intros [= <- <-]].
  destruct (NewHTTPClient (open_config uri)) as [c|err]; [|now intros [= <- <-]].
  intros [= <- <-]. pose proof (is_fresh (dom (conns s))) as Hf.
  apply not_elem_of_dom in Hf. destruct Hwf as [Htx Hslot].
  split; [|split; [reflexivity|split; [reflexivity|]]].
  - split; cbn [conns txs batches].
    + intros t T HT. destruct (Htx t T HT) as [Hconn Hb]. split; [|exact Hb].
      cbn [conns]. apply lookup_insert_is_Some.
      destruct (decide (fresh (dom (conns s)) = tx_conn T)); [now left|now right].
    + intros c0 cn0 t Hc0 Hs.
      destruct (decide (fresh (dom (conns s)) = c0)) as [<-|Hne].
      * rewrite lookup_insert_eq in Hc0. injection Hc0 as <-. discriminate.
      * rewrite lookup_insert_ne in Hc0 by assumption. now apply (Hslot c0 cn0).
  - intros l cn Hl. cbn [conns]. rewrite lookup_insert_ne; [exact Hl|].
    intros E. congruence.
Qed.

End OpenMore.

(* ------------------------------------------------------------------ *)
(** ** The further properties on the sample stores *)

Section MoreWitnesses.
Import Sample Fixtures.

Lemma wf_empty_store {C Point : Type} : wf_store (@empty_store C Point).
Proof.
  split; cbn.
  - intros t T Ht. now rewrite lookup_empty in Ht.
  - intros c cn t Hc. now rewrite lookup_empty in Hc.
Qed.

Lemma wf_idle_store : wf_store idle_store.
Proof.
  split; cbn.
  - intros t T Ht. now rewrite lookup_empty in Ht.
  - intros c cn t Hc Ht. apply lookup_singleton_Some in Hc as [_ <-].
    discriminate.
Qed.

Lemma wf_open_store (failing : bool) : wf_store (open_store failing).
Proof.
  split; cbn.
  - intros t T Ht. apply lookup_singleton_Some in Ht as [_ <-].
    split; cbn; rewrite lookup_singleton_eq; eauto.
  - intros c cn t Hc Ht. apply lookup_singleton_Some in Hc as [<- <-].
    injection Ht as <-. exists tx1. split; [apply lookup_singleton_eq|reflexivity].
Qed.

Lemma httpClient_Write_status_witness :
  fst (@httpClient_Write (lib (inl (mkHTTPResponse 204 [] None [] 0))) client
         (B "cpu value=1") (WriteConfig_for (B "mydb")))
  = with_requests client
      ([] ++ [Write_request client (B "cpu value=1") (WriteConfig_for (B "mydb"))])
  /\ (snd (@httpClient_Write (lib (inl (mkHTTPResponse 204 [] None [] 0))) client
             (B "cpu value=1") (WriteConfig_for (B "mydb"))) = None
      <-> 204 = 200 \/ 204 = 204)
  /\ (204 <> 200 -> 204 <> 204 ->
      snd (@httpClient_Write (lib (inl (mkHTTPResponse 204 [] None [] 0))) client
             (B "cpu value=1") (WriteConfig_for (B "mydb")))
      = Some (fmt_Errorf (string_of_list_ascii []) [])).
Proof.
  apply (@httpClient_Write_status (lib (inl (mkHTTPResponse 204 [] None [] 0)))
           client (B "cpu value=1") (WriteConfig_for (B "mydb"))
           (mkHTTPResponse 204 [] None [] 0)); reflexivity.
Defined.

Lemma stmt_Exec_result_witness :
  @None error = None
  /\ exists cn c' r,
       conns idle_store !! 1%positive = Some cn
       /\ Client_Query (conn_c cn)
            (mkQuery (B "SHOW DATABASES") (conn_database cn) (conn_precision cn))
          = (c', (Some r, None))
       /\ Response_Error r = None
       /\ mk_result 0 0 = mk_result 0 (Z.of_nat (length (Results r))).
Proof.
  apply (stmt_Exec_result idle_store (mk_stmt 1%positive (B "SHOW DATABASES"))
           (mk_result 0 0) None
           (mk_store
              {[ 1%positive
                 := mk_conn
                      (mk_recorder
                         [CallQuery (NewQuery (B "SHOW DATABASES") (B "mydb") (B "ns"))]
                         false)
                      (B "mydb") (B "ns") None ]} ∅ ∅)).
  reflexivity.
Defined.

Lemma stmt_Exec_over_udp_witness :
  stmt_Exec (mk_stmt 1%positive (B "SHOW DATABASES")) udp_store
  = Ret ((None, Some (fmt_Errorf "Querying via UDP is not supported" [])),
         udp_store).
Proof.
  apply (stmt_Exec_over_udp udp_store (mk_stmt 1%positive (B "SHOW DATABASES"))
           (mk_conn (mk_udpclient quiet_conn 512) (B "mydb") (B "ns") None)).
  reflexivity.
Defined.

Lemma stmt_Exec_over_http_returns_witness :
  exists r s',
    @stmt_Exec httpClient bytes (@httpClient_Client (lib (server_error [])))
      (mk_stmt 1%positive (B "SHOW DATABASES")) http_store
    = Ret (r, s').
Proof.
  apply (@stmt_Exec_over_http_returns bytes (lib (server_error [])) http_store
           (mk_stmt 1%positive (B "SHOW DATABASES"))
           (mk_conn client (B "mydb") (B "ns") None)).
  reflexivity.
Defined.

Lemma stmt_Exec_over_http_status_witness :
  exists e s',
    @stmt_Exec httpClient bytes
      (@httpClient_Client (lib (server_error (B "Internal Server Error"))))
      (mk_stmt 1%positive (B "SHOW DATABASES")) http_store
    = Ret ((None, Some e), s').
Proof.
  apply (@stmt_Exec_over_http_status bytes
           (lib (server_error (B "Internal Server Error"))) http_store
           (mk_stmt 1%positive (B "SHOW DATABASES"))
           (mk_conn client (B "mydb") (B "ns") None)
           (mkHTTPResponse 500 (B "Internal Server Error") None [] 0));
    [reflexivity|reflexivity|reflexivity|discriminate].
Defined.

Lemma conn_Begin_keeps_wf_witness :
  exists r s', conn_Begin 1%positive idle_store = Ret (r, s') /\ wf_store s'.
Proof.
  apply (conn_Begin_keeps_wf idle_store 1%positive (conn1 false None)
           wf_idle_store).
  reflexivity.
Defined.

Lemma tx_end_keeps_wf_witness :
  (exists err s' cn',
     tx_Commit 1%positive (open_store true) = Ret (err, s') /\ wf_store s'
     /\ conns s' !! 1%positive = Some cn' /\ conn_tx cn' = None)
  /\ (exists s' cn',
        tx_Rollback 1%positive (open_store true) = Ret (None, s') /\ wf_store s'
        /\ conns s' !! 1%positive = Some cn' /\ conn_tx cn' = None).
Proof.
  apply (tx_end_keeps_wf (open_store true) 1%positive tx1 (wf_open_store true)).
  reflexivity.
Defined.

Lemma Stmt_Exec_keeps_wf_witness :
  wf_store
    (mk_store
       {[ 1%positive
          := mk_conn
               (mk_recorder
                  [CallWrite (B "cpu value=1") (WriteConfig_for (B "other"))] false)
               (B "mydb") (B "ns") (Some 1%positive) ]}
       {[ 1%positive := tx1 ]} {[ 1%positive := batch1 ]}).
Proof.
  apply (Stmt_Exec_keeps_wf (open_store false)
           (InsertStmt (mk_insertStmt 1%positive (B "other") (B "cpu value=1")))
           (Some (mk_result 0 0), None) _ (wf_open_store false)).
  reflexivity.
Defined.

Lemma begin_commit_writes_nothing_witness :
  exists c' err s',
    Client_Write (mk_recorder [] false) [] (mkWriteConfig [] (B "mydb") [] [])
    = (c', err)
    /\ begin_commit 1%positive idle_store = Ret (err, s')
    /\ conns s' !! 1%positive = Some (mk_conn c' (B "mydb") (B "ns") None).
Proof.
  apply (begin_commit_writes_nothing idle_store 1%positive (conn1 false None));
    reflexivity.
Defined.

Lemma commit_twice_writes_twice_witness :
  exists c1 e1 c2 e2 s',
    Client_Write (mk_recorder [] false) (payload_ns (points batch1))
      (WriteConfig_for (B "mydb")) = (c1, e1)
    /\ Client_Write c1 (payload_ns (points batch1)) (WriteConfig_for (B "mydb"))
       = (c2, e2)
    /\ commit_twice 1%positive (open_store false) = Ret ((e1, e2), s')
    /\ conns s' !! 1%positive = Some (mk_conn c2 (B "mydb") (B "ns") None).
Proof.
  apply (commit_twice_writes_twice (open_store false) 1%positive tx1
           (conn1 false (Some 1%positive)) batch1); reflexivity.
Defined.

Lemma newStmt_insert_shape_witness :
  ins_conn (mk_insertStmt 1%positive (B "mydb") (B "cpu value=1")) = 1%positive
  /\ run_of Regexp.is_ident (B "mydb") = true
  /\ forallb Regexp.not_newline (B "cpu value=1") = true
  /\ (exists rest,
        insert_pattern two_line_insert (B "mydb") rest
        /\ B "cpu value=1" = first_line rest)
  /\ snd (newStmt 1%positive two_line_insert) = None.
Proof.
  apply (newStmt_insert_shape 1%positive two_line_insert
           (mk_insertStmt 1%positive (B "mydb") (B "cpu value=1"))).
  reflexivity.
Defined.

Lemma newStmt_body_first_line_witness :
  newStmt 1%positive two_line_insert
  = (InsertStmt
       (mk_insertStmt 1%positive (B "mydb")
          (first_line (B "cpu value=1" ++ [newline] ++ B "cpu value=2"))), None)
  /\ first_line (B "cpu value=1" ++ [newline] ++ B "cpu value=2")
     ++ after_line (B "cpu value=1" ++ [newline] ++ B "cpu value=2")
     = B "cpu value=1" ++ [newline] ++ B "cpu value=2".
Proof.
  apply (newStmt_body_first_line 1%positive two_line_insert (B "mydb")
           (B "cpu value=1" ++ [newline] ++ B "cpu value=2")).
  exists (B "INSERT"), (B " "), (B "INTO"), (B " "). now repeat split.
Defined.

Lemma newStmt_leading_byte_witness :
  newStmt 1%positive (B " INSERT INTO mydb.cpu value=1")
  = (GenericStmt (mk_stmt 1%positive (B " INSERT INTO mydb.cpu value=1")), None).
Proof.
  apply (newStmt_leading_byte 1%positive (B " INSERT INTO mydb.cpu value=1")).
  split; discriminate.
Defined.

Lemma Open_then_Begin_witness :
  open_precision
    (mkURL (B "http") None (B "localhost:8086") (B "/mydb")
       {[ B "precision" := [B "s"] ]}) <> []
  /\ exists l t b s',
       @open_begin bytes (lib (server_error []))
         (B "http://localhost:8086/mydb?precision=s") empty_store
       = Ret ((Some t, None), s')
       /\ conns (@empty_store httpClient bytes) !! l = None
       /\ conns s' !! l = Some (mk_conn client (B "mydb") (B "s") (Some t))
       /\ txs s' !! t = Some (mk_tx l b)
       /\ batches s' !! b = Some (mkBatchPoints []).
Proof.
  exact (@Open_then_Begin bytes (lib (server_error [])) empty_store
           (B "http://localhost:8086/mydb?precision=s")
           (mkURL (B "http") None (B "localhost:8086") (B "/mydb")
              {[ B "precision" := [B "s"] ]})
           client eq_refl eq_refl eq_refl).
Defined.

Lemma Open_keeps_wf_witness :
  @wf_store httpClient bytes
    (mk_store
       {[ fresh (dom (conns (@empty_store httpClient bytes)))
          := mk_conn client (B "mydb") (B "s") None ]} ∅ ∅).
Proof.
  apply (@Open_keeps_wf bytes (lib (server_error [])) empty_store
           (B "http://localhost:8086/mydb?precision=s")
           (Some (fresh (dom (conns (@empty_store httpClient bytes)))), None)
           _ wf_empty_store).
  reflexivity.
Defined.

End MoreWitnesses.
